(** * calc_particle_mass.py: the particle mass table generator

    A shallow embedding of [src/calc_particle_mass.py] and the properties of
    the table it writes.  The script iterates the PDG catalog of the external
    [particle] package, drops quarks and nuclei/ions, groups the remaining
    records by [|PDGID|], resolves one mass per group (zero by convention for
    neutrinos and the photon), converts it to kilograms and writes one line per
    group to [data/particle_masses.txt].

    Python integers are [Z], Python floats are IEEE-754 binary64 values
    ([spec_float] at precision 53), the dictionary [absid_to_pdgid] is a
    [gmap Z Z], exceptions are an explicit [result] type, and the file system
    and standard output are an explicit [World]. *)

From Stdlib Require Import ZArith String Ascii List Lia.
From Stdlib Require Import Floats.SpecFloat DecimalString.
From Stdlib Require DecimalZ DecimalPos.
From stdpp Require Import gmap strings list fin_maps sorting.

Local Open Scope Z_scope.

(** ** Python floats: IEEE-754 binary64 *)

Module F64.

Definition prec : Z := 53.
Definition emax : Z := 1024.

Definition float := spec_float.

(** [0.0] *)
Definition zero : float := S754_zero false.

(** [x * y] *)
Definition mul (x y : float) : float := SFmul prec emax x y.

(** [x == y] and [x != y]; a NaN differs from everything, [-0.0 == 0.0]. *)
Definition eqb (x y : float) : bool := SFeqb x y.
Definition neqb (x y : float) : bool := negb (eqb x y).

(** [math.isnan(x)] *)
Definition isnan (x : float) : bool :=
  match x with S754_nan => true | _ => false end.

(** A value that really is a binary64 number: mantissa and exponent in
    canonical form. *)
Definition valid (x : float) : bool := valid_binary prec emax x.

(** What every finite result of an arithmetic operation satisfies: a
    mantissa of at most 53 bits and an exponent between [emin = -1074] and
    [emax - prec = 971]. *)
Definition in_range (x : float) : bool :=
  match x with
  | S754_finite _ m e =>
      (Z.pos (digits2_pos m) <=? prec) && (-1074 <=? e) && (e <=? 971)
  | _ => true
  end.

(** The value of a finite float counted in units of [2^-1074], the smallest
    positive binary64 number: an integer when the exponent is at least
    [-1074]. *)
Definition units (x : float) : Z :=
  match x with
  | S754_finite _ m e => Z.pos m * 2 ^ (e + 1074)
  | _ => 0
  end.

End F64.

Abbreviation float := F64.float.

(** ** Exceptions *)

Inductive exn : Type :=
| ValueError (msg : string)
| ParticleNotFound (value : Z)
| KeyError (key : Z).

Inductive result (A : Type) : Type :=
| Ok (a : A)
| Raise (e : exn).
Arguments Ok {A} a.
Arguments Raise {A} e.

Definition bind {A B : Type} (r : result A) (k : A -> result B) : result B :=
  match r with
  | Ok a => k a
  | Raise e => Raise e
  end.

Notation "'try!' x ':=' r 'in' k" := (bind r (fun x => k))
  (at level 10, x name, r at level 100, k at level 200).

(** ** The external catalog

    [Particle] is the record type of the [particle] package; only the three
    attributes the script reads are kept.  [mass] is [None] or a float (MeV),
    [name] is a string that may be missing or empty. *)

Record Particle : Type := mkParticle {
  pdgid : Z;
  mass : option float;
  name : option string
}.

(** [Particle.findall()] enumerates the table in its order. *)
Definition catalog : Type := list Particle.

(** [Particle.from_pdgid(value)]: the first record with that identifier,
    [ParticleNotFound] when the table has none.  The package refuses
    beforehand, with its own exception, an identifier that its numbering
    scheme does not accept; that test belongs to the package and is not part
    of this model, which covers tables and lookups of identifiers the
    package accepts. *)
Fixpoint from_pdgid (cat : catalog) (value : Z) : result Particle :=
  match cat with
  | [] => Raise (ParticleNotFound value)
  | p :: rest => if pdgid p =? value then Ok p else from_pdgid rest value
  end.

(** ** Constants *)

(** [MEV_TO_KG = 1.78266192e-30]: the binary64 value the literal denotes,
    [0x1.2140e10c759b1p-99]. *)
Definition MEV_TO_KG : float := S754_finite false 5088600224389553 (-151).

Definition quark_ids : gset Z := {[ 1; 2; 3; 4; 5; 6 ]}.
Definition massless_ids : gset Z := {[ 12; 14; 16; 22 ]}.

(** ** Classification *)

(** [abs(p.pdgid) in {1, 2, 3, 4, 5, 6}] *)
Definition is_quark (p : Particle) : bool :=
  bool_decide (Z.abs (pdgid p) ∈ quark_ids).

(** [True] when [abs(p.pdgid) >= 1_000_000_000]; the source falls off the end
    otherwise and returns [None], which the caller's [if] reads as false. *)
Definition is_nucleus_or_ion (p : Particle) : bool :=
  1000000000 <=? Z.abs (pdgid p).

(** ** Mass resolution *)

Definition forced_mass_mev (cat : catalog) (id : Z) : result float :=
  if bool_decide (Z.abs id ∈ massless_ids) then Ok F64.zero
  else
    try! p := from_pdgid cat id in
    match mass p with
    | None => Raise (ValueError "no mass")
    | Some m => if F64.isnan m then Raise (ValueError "no mass") else Ok m
    end.

(** ** Python string formatting

    The pieces of the format-specification mini-language the script uses:
    [str(int)], the [d] presentation, [>w] and [<w] alignment, and the [e]
    and [g] presentations of a float.  Floats are rendered from their exact
    binary value, correctly rounded to the requested number of significant
    digits with ties to even, as CPython does. *)

Module PyFormat.

Definition nl : string := String (ascii_of_nat 10) EmptyString.

(** [str(z)] for an integer. *)
Definition str_int (z : Z) : string := NilZero.string_of_int (Z.to_int z).

(** [str(x)] for an object [x] of the package's class [PDGID] with value [z].
    [PDGID] is a subclass of [int]: it compares, hashes and takes the [d]
    presentation as the integer does, and [abs] of it is a plain integer;
    [str], which [print] and a format field without specification use, is
    the class's own. *)
Definition str_PDGID (z : Z) : string := "<PDGID: " +:+ str_int z +:+ ">".

Definition spaces (n : nat) : string := string_of_list_ascii (repeat " "%char n).

(** [f"{s:>w}"]: right-justified, at least [w] wide. *)
Definition rjust (w : nat) (s : string) : string :=
  spaces (w - String.length s) +:+ s.

(** [f"{s:<w}"]: left-justified, at least [w] wide. *)
Definition ljust (w : nat) (s : string) : string :=
  s +:+ spaces (w - String.length s).

Definition digit_char (d : Z) : ascii := ascii_of_nat (48 + Z.to_nat d).

(** The [n] low decimal digits of [v], most significant first. *)
Fixpoint digits_fixed (n : nat) (v : Z) : list ascii :=
  match n with
  | O => []
  | S n' => digits_fixed n' (v / 10) ++ [digit_char (v mod 10)]
  end.

(** The value [m * 2^e] as a fraction. *)
Definition num_den (m : positive) (e : Z) : Z * Z :=
  if 0 <=? e then (Z.pos m * 2 ^ e, 1) else (Z.pos m, 2 ^ (- e)).

(** [n/d * 10^s] as a fraction. *)
Definition scale10 (nd : Z * Z) (s : Z) : Z * Z :=
  let '(n, d) := nd in
  if 0 <=? s then (n * 10 ^ s, d) else (n, d * 10 ^ (- s)).

(** Largest [k] with [p * 10^k <= n], counted from [k]. *)
Fixpoint exp_up (fuel : nat) (p n k : Z) : Z :=
  match fuel with
  | O => k
  | S fuel' => if 10 * p <=? n then exp_up fuel' (10 * p) n (k + 1) else k
  end.

(** Largest [k] with [d <= q * 10^(-k)], counted down from [k]. *)
Fixpoint exp_down (fuel : nat) (q d k : Z) : Z :=
  match fuel with
  | O => k
  | S fuel' => if d <=? q then k else exp_down fuel' (10 * q) d (k - 1)
  end.

(** [floor (log10 (m * 2^e))]: [2^e <= m * 2^e < 2^(digits m + e)] bounds
    the search. *)
Definition decimal_exponent (m : positive) (e : Z) : Z :=
  let '(n, d) := num_den m e in
  let fuel := (Pos.to_nat (digits2_pos m) + Z.abs_nat e)%nat in
  if d <=? n then exp_up fuel d n 0 else exp_down fuel (10 * n) d (-1).

Definition round_half_even (n d : Z) : Z :=
  let q := n / d in
  match 2 * (n mod d) ?= d with
  | Lt => q
  | Gt => q + 1
  | Eq => if Z.even q then q else q + 1
  end.

(** [m * 2^e] rounded to [P] significant decimal digits: the integer made of
    those digits and the decimal exponent of the first one. *)
Definition round_sig (P : nat) (m : positive) (e : Z) : Z * Z :=
  let k := decimal_exponent m e in
  let '(n, d) := scale10 (num_den m e) (Z.of_nat P - 1 - k) in
  let r := round_half_even n d in
  if r =? 10 ^ Z.of_nat P then (10 ^ (Z.of_nat P - 1), k + 1) else (r, k).

Definition sign_text (s : bool) : list ascii := if s then ["-"%char] else [].

(** Exponent part: sign and at least two digits. *)
Definition exp_text (k : Z) : list ascii :=
  "e"%char :: (if k <? 0 then "-"%char else "+"%char)
    :: (if Z.abs k <? 10 then ["0"%char] else [])
    ++ list_ascii_of_string (str_int (Z.abs k)).

Definition with_point (int frac : list ascii) : list ascii :=
  match frac with [] => int | _ => int ++ "."%char :: frac end.

(** [f"{x:.pe}"] *)
Definition format_e (p : nat) (x : float) : string :=
  string_of_list_ascii
    match x with
    | S754_nan => list_ascii_of_string "nan"
    | S754_infinity s => sign_text s ++ list_ascii_of_string "inf"
    | S754_zero s =>
        sign_text s ++ with_point ["0"%char] (digits_fixed p 0) ++ exp_text 0
    | S754_finite s m e =>
        let '(r, k) := round_sig (S p) m e in
        sign_text s
          ++ with_point (digits_fixed 1 (r / 10 ^ Z.of_nat p)) (digits_fixed p r)
          ++ exp_text k
    end.

Fixpoint strip_zeros (l : list ascii) : list ascii :=
  match l with
  | [] => []
  | c :: t =>
      match strip_zeros t with
      | [] => if Ascii.eqb c "0" then [] else [c]
      | t' => c :: t'
      end
  end.

(** [f"{x:.pg}"]: [P = max p 1] significant digits, fixed-point when the
    decimal exponent is in [-4, P), scientific otherwise, trailing zeros
    removed. *)
Definition format_g (p : nat) (x : float) : string :=
  let P := Nat.max p 1 in
  string_of_list_ascii
    match x with
    | S754_nan => list_ascii_of_string "nan"
    | S754_infinity s => sign_text s ++ list_ascii_of_string "inf"
    | S754_zero s => sign_text s ++ ["0"%char]
    | S754_finite s m e =>
        let '(r, k) := round_sig P m e in
        let ds := digits_fixed P r in
        sign_text s ++
        if (-4 <=? k) && (k <? Z.of_nat P) then
          if 0 <=? k then
            with_point (take (S (Z.to_nat k)) ds)
                       (strip_zeros (drop (S (Z.to_nat k)) ds))
          else
            with_point ["0"%char]
                       (strip_zeros (repeat "0"%char (Z.to_nat (- k - 1)) ++ ds))
        else
          with_point (take 1 ds) (strip_zeros (drop 1 ds)) ++ exp_text k
    end.

End PyFormat.

(** ** The grouping loop

    The loop over [Particle.findall()] builds [absid_to_pdgid] and prints the
    identifier of every record that is not a quark; [p.pdgid] is a [PDGID]
    object and is printed as such. *)

Definition group_step (cat : catalog) (st : gmap Z Z * list string)
    (p : Particle) : gmap Z Z * list string :=
  let '(d, out) := st in
  if is_quark p then (d, out)
  else
    let out := out ++ [PyFormat.str_PDGID (pdgid p)] in
    if is_nucleus_or_ion p then (d, out)
    else
      let aid := Z.abs (pdgid p) in
      match d !! aid with
      | Some _ => (d, out)
      | None =>
          match from_pdgid cat aid with
          | Ok _ => (<[aid := aid]> d, out)
          | Raise _ => (<[aid := pdgid p]> d, out)
          end
      end.

Definition grouping (cat : catalog) : gmap Z Z * list string :=
  fold_left (group_step cat) cat (∅, []).

Definition absid_to_pdgid (cat : catalog) : gmap Z Z := fst (grouping cat).

(** ** The rows loop *)

(** The tuple [(pdgid, m_kg, name, m_mev)]. *)
Record Row : Type := mkRow {
  row_pdgid : Z;
  row_m_kg : float;
  row_name : string;
  row_m_mev : float
}.

(** [n or fallback]: [None] and the empty string are falsy. *)
Definition name_or (n : option string) (fallback : string) : string :=
  match n with
  | Some (String c s) => String c s
  | _ => fallback
  end.

(** [f"{pdgid}"] for the object stored under key [aid]: the grouping loop
    stored the plain integer [aid] when the lookup of [aid] succeeded and the
    record's [PDGID] object when it raised. *)
Definition str_stored (cat : catalog) (aid id : Z) : string :=
  match from_pdgid cat aid with
  | Ok _ => PyFormat.str_int id
  | Raise _ => PyFormat.str_PDGID id
  end.

(** [sorted(d.keys())] *)
Definition sorted_keys (d : gmap Z Z) : list Z :=
  merge_sort Z.le (elements (dom d)).

Fixpoint rows_loop (cat : catalog) (d : gmap Z Z) (keys : list Z)
    (rows : list Row) : result (list Row) :=
  match keys with
  | [] => Ok rows
  | aid :: keys' =>
      match d !! aid with
      | None => Raise (KeyError aid)
      | Some id =>
          match forced_mass_mev cat id with
          | Raise (ValueError _) => rows_loop cat d keys' rows
          | Raise e => Raise e
          | Ok m_mev =>
              let m_kg := F64.mul m_mev MEV_TO_KG in
              try! p := from_pdgid cat id in
              let nm := name_or (name p) ("PDG" +:+ str_stored cat aid id) in
              rows_loop cat d keys' (rows ++ [mkRow id m_kg nm m_mev])
          end
      end
  end.

Definition build_rows (cat : catalog) : result (list Row) :=
  let d := absid_to_pdgid cat in
  rows_loop cat d (sorted_keys d) [].

(** ** Output lines *)

(** [f"{m_kg:.10e}" if m_kg != 0.0 else "0.0"] *)
Definition m_kg_str (m_kg : float) : string :=
  if F64.neqb m_kg F64.zero then PyFormat.format_e 10 m_kg else "0.0".

(** [f"{pdgid:>6d} {m_kg_str:<18}    # {name} ({m_mev:.6g} MeV/c^2)\n"] *)
Definition payload_line (r : Row) : string :=
  PyFormat.rjust 6 (PyFormat.str_int (row_pdgid r)) +:+ " "
    +:+ PyFormat.ljust 18 (m_kg_str (row_m_kg r)) +:+ "    # "
    +:+ row_name r +:+ " (" +:+ PyFormat.format_g 6 (row_m_mev r)
    +:+ " MeV/c^2)" +:+ PyFormat.nl.

(** ** The script

    What the run depends on: whether [particle] can be imported (and then its
    table), and whether [gitHelp.get_git_revision_hash()] returns a string.
    What it acts on: the [data] directory, the file
    [data/particle_masses.txt] and standard output. *)

Record Env : Type := mkEnv {
  particle_pkg : option catalog;
  git_revision_hash : option string
}.

Record World : Type := mkWorld {
  data_dir : bool;
  masses_file : option string;
  stdout : list string
}.

Inductive outcome : Type :=
| Finished
| SystemExit (msg : string)
| Uncaught (e : exn).

Definition import_message : string :=
  "This script requires 'particle' (scikit-hep). Install with:" +:+ PyFormat.nl
    +:+ "    pip install particle".

Definition header_line : string :=
  "# PDG masses [kg]; particle/antiparticle share the same value via |PDG|"
    +:+ PyFormat.nl.

Definition version_line (git_hash : string) : string :=
  "# Produced with crpropa-data version: " +:+ git_hash +:+ PyFormat.nl.

Definition print_all (out : list string) (w : World) : World :=
  mkWorld (data_dir w) (masses_file w) (stdout w ++ out).

(** [if not os.path.exists(folder): os.makedirs(folder)] *)
Definition ensure_folder (w : World) : World :=
  if data_dir w then w else mkWorld true (masses_file w) (stdout w).

(** [open(..., "w")] truncates, [write] appends. *)
Definition open_w (w : World) : World :=
  mkWorld (data_dir w) (Some EmptyString) (stdout w).

Definition write (s : string) (w : World) : World :=
  match masses_file w with
  | Some text => mkWorld (data_dir w) (Some (text +:+ s)) (stdout w)
  | None => w
  end.

Definition write_version (env : Env) (w : World) : World :=
  match git_revision_hash env with
  | Some git_hash => write (version_line git_hash) w
  | None => w
  end.

Definition write_rows (rows : list Row) (w : World) : World :=
  fold_left (fun w r => write (payload_line r) w) rows w.

Definition script (env : Env) (w : World) : outcome * World :=
  match particle_pkg env with
  | None => (SystemExit import_message, w)
  | Some cat =>
      let '(d, out) := grouping cat in
      let w := print_all out w in
      match rows_loop cat d (sorted_keys d) [] with
      | Raise e => (Uncaught e, w)
      | Ok rows =>
          let w := ensure_folder w in
          let w := open_w w in
          let w := write header_line w in
          let w := write_version env w in
          let w := write_rows rows w in
          (Finished, w)
      end
  end.

(** ** Notions used to state the properties *)

(** A record survives the two exclusion filters. *)
Definition kept (p : Particle) : bool :=
  negb (is_quark p) && negb (is_nucleus_or_ion p).

(** The same test on an absolute identifier. *)
Definition kept_id (aid : Z) : Prop :=
  (aid ∉ quark_ids) ∧ (aid < 1000000000).

(** The representative the loop stores for a record that opens a group. *)
Definition representative (cat : catalog) (p : Particle) : Z :=
  match from_pdgid cat (Z.abs (pdgid p)) with
  | Ok _ => Z.abs (pdgid p)
  | Raise _ => pdgid p
  end.

(** The dictionary component of one loop iteration. *)
Definition dict_step (cat : catalog) (d : gmap Z Z) (p : Particle) : gmap Z Z :=
  if kept p then
    match d !! Z.abs (pdgid p) with
    | Some _ => d
    | None => <[Z.abs (pdgid p) := representative cat p]> d
    end
  else d.

(** What every entry of the dictionary satisfies. *)
Definition entry_ok (cat : catalog) (aid id : Z) : Prop :=
  Z.abs id = aid ∧ kept_id aid
  ∧ (∃ p, p ∈ cat ∧ kept p = true ∧ Z.abs (pdgid p) = aid
          ∧ id = representative cat p)
  ∧ (∃ q, from_pdgid cat id = Ok q).

Definition dict_ok (cat : catalog) (d : gmap Z Z) : Prop :=
  ∀ aid id, d !! aid = Some id → entry_ok cat aid id.

(** The row of one representative, when its mass resolves. *)
Definition row_of (cat : catalog) (id : Z) : option Row :=
  match forced_mass_mev cat id, from_pdgid cat id with
  | Ok m_mev, Ok p =>
      Some (mkRow id (F64.mul m_mev MEV_TO_KG)
                  (name_or (name p) ("PDG" +:+ str_stored cat (Z.abs id) id))
                  m_mev)
  | _, _ => None
  end.

Definition row_of_key (cat : catalog) (d : gmap Z Z) (aid : Z) : option Row :=
  d !! aid ≫= row_of cat.

(** The state of the right shift of [mx] by [n] bits held in a
    [shr_record]: the quotient, and in the round and sticky bits the position
    of the remainder relative to one half. *)
Definition shr_inv (mx n : Z) (mrs : shr_record) : Prop :=
  ∃ rem, mx = shr_m mrs * 2 ^ n + rem ∧ 0 <= rem < 2 ^ n
         ∧ (shr_r mrs = true ↔ 2 ^ n <= 2 * rem)
         ∧ (shr_s mrs = true ↔ rem ≠ 0 ∧ 2 * rem ≠ 2 ^ n)
         ∧ 0 <= shr_m mrs.

(** The number a run of decimal digit characters denotes. *)
Definition digits_value (l : list ascii) : Z :=
  fold_left (λ acc c, 10 * acc + (Z.of_nat (nat_of_ascii c) - 48)) l 0.

(** ** The shape of a payload line *)




(** ** A small catalog to run the script on

    Masses are the binary64 values of the decimal literals in the comments. *)

(** [0.51099895] *)
Definition mass_electron : float := S754_finite false 4602669361613429 (-53).

(** [938.27208816] *)
Definition mass_proton : float := S754_finite false 8253128567596705 (-43).

(** [4.67] *)
Definition mass_down : float := S754_finite false 5257952564955054 (-50).

(** [475.0] *)
Definition mass_f0 : float := S754_finite false 8356288371097600 (-44).

Definition sample_catalog : catalog :=
  [ mkParticle 1 (Some mass_down) (Some "d");
    mkParticle (-11) (Some mass_electron) (Some "e+");
    mkParticle 11 (Some mass_electron) (Some "e-");
    mkParticle 12 None (Some "nu(e)");
    mkParticle 21 (Some (S754_zero false)) (Some "g");
    mkParticle 22 (Some mass_electron) (Some "gamma");
    mkParticle 39 None (Some "G");
    mkParticle (-4122) (Some S754_nan) (Some "Lambda(c)~-");
    mkParticle (-2212) (Some mass_proton) (Some "");
    mkParticle 9000221 (Some mass_f0) (Some "f(0)(500)");
    mkParticle 1000010010 (Some mass_proton) (Some "H1") ].

Definition row_electron : Row :=
  mkRow 11 (S754_finite false 5200538743265651 (-152)) "e-" mass_electron.

Definition row_nu_e : Row := mkRow 12 F64.zero "nu(e)" F64.zero.

Definition row_gluon : Row := mkRow 21 F64.zero "g" F64.zero.

Definition row_photon : Row := mkRow 22 F64.zero "gamma" F64.zero.

Definition row_antiproton : Row :=
  mkRow (-2212) (S754_finite false 4662589412450615 (-141)) "PDG<PDGID: -2212>"
        mass_proton.

Definition row_f0 : Row :=
  mkRow 9000221 (S754_finite false 4720869348798902 (-142)) "f(0)(500)" mass_f0.

Definition sample_rows : list Row :=
  [ row_electron; row_nu_e; row_gluon; row_photon; row_antiproton; row_f0 ].

(** * Properties *)

(** ** The constant *)

(** [MEV_TO_KG] is the binary64 number nearest to the decimal literal
    [1.78266192e-30 = 178266192 / 10^38]: the literal lies within half a unit
    in the last place ([2^-152]) of [5088600224389553 / 2^151]. *)
Lemma MEV_TO_KG_nearest :
  MEV_TO_KG = S754_finite false 5088600224389553 (-151)
  ∧ F64.valid MEV_TO_KG = true
  ∧ 2 * Z.abs (5088600224389553 * 10 ^ 38 - 178266192 * 2 ^ 151) < 10 ^ 38.
Proof. split; [reflexivity|]. split; [reflexivity|]. vm_compute. reflexivity. Qed.

(** ** Catalog lookups *)

Lemma from_pdgid_Ok cat v p :
  from_pdgid cat v = Ok p → pdgid p = v ∧ p ∈ cat.
Proof.
  induction cat as [|q cat IH]; simpl; [discriminate|].
  destruct (pdgid q =? v) eqn:E.
  - intros [= <-]. split; [lia|]. apply list_elem_of_here.
  - intros H. destruct (IH H) as [? ?]. split; [done|].
    by apply list_elem_of_further.
Qed.

Lemma from_pdgid_elem_of cat p :
  p ∈ cat → ∃ q, from_pdgid cat (pdgid p) = Ok q.
Proof.
  induction cat as [|q cat IH]; [by intros ?%elem_of_nil|].
  intros [->|Hin]%elem_of_cons; simpl.
  - rewrite Z.eqb_refl. eauto.
  - destruct (pdgid q =? pdgid p); eauto.
Qed.

Lemma from_pdgid_Raise cat v e :
  from_pdgid cat v = Raise e → e = ParticleNotFound v ∧ ∀ p, p ∈ cat → pdgid p ≠ v.
Proof.
  induction cat as [|q cat IH]; simpl.
  - intros [= <-]. split; [done|]. by intros p ?%elem_of_nil.
  - destruct (pdgid q =? v) eqn:E; [discriminate|].
    intros H. destruct (IH H) as [-> Hall]. split; [done|].
    intros p [->|Hin]%elem_of_cons; [lia|by apply Hall].
Qed.

(** ** Classification by absolute identifier *)

Lemma kept_spec p : kept p = true ↔ kept_id (Z.abs (pdgid p)).
Proof.
  unfold kept, kept_id, is_quark, is_nucleus_or_ion.
  rewrite andb_true_iff, !negb_true_iff, bool_decide_eq_false, Z.leb_gt.
  done.
Qed.

Lemma kept_same_abs p q :
  Z.abs (pdgid p) = Z.abs (pdgid q) → kept p = kept q.
Proof.
  intros H. unfold kept, is_quark, is_nucleus_or_ion. by rewrite H.
Qed.

Lemma quark_ids_spec aid : aid ∈ quark_ids ↔ 1 <= aid <= 6.
Proof. unfold quark_ids. rewrite !elem_of_union, !elem_of_singleton. lia. Qed.

Lemma massless_ids_spec aid :
  aid ∈ massless_ids ↔ aid = 12 ∨ aid = 14 ∨ aid = 16 ∨ aid = 22.
Proof. unfold massless_ids. rewrite !elem_of_union, !elem_of_singleton. lia. Qed.

(** ** The grouping loop *)

Lemma group_step_fst cat st p :
  fst (group_step cat st p) = dict_step cat (fst st) p.
Proof.
  destruct st as [d out]. unfold group_step, dict_step, kept, representative.
  simpl. destruct (is_quark p); simpl; [done|].
  destruct (is_nucleus_or_ion p); simpl; [done|].
  destruct (d !! Z.abs (pdgid p)); [done|].
  by destruct (from_pdgid cat (Z.abs (pdgid p))).
Qed.

Lemma grouping_fst cat l st :
  fst (fold_left (group_step cat) l st) = fold_left (dict_step cat) l (fst st).
Proof.
  revert st. induction l as [|p l IH]; intros st; simpl; [done|].
  by rewrite IH, group_step_fst.
Qed.

Lemma absid_to_pdgid_fold cat :
  absid_to_pdgid cat = fold_left (dict_step cat) cat ∅.
Proof. unfold absid_to_pdgid, grouping. by rewrite grouping_fst. Qed.

(** An entry, once made, is never overwritten. *)
Lemma dict_step_keep cat d p aid v :
  d !! aid = Some v → dict_step cat d p !! aid = Some v.
Proof.
  intros H. unfold dict_step. destruct (kept p); [|done].
  destruct (d !! Z.abs (pdgid p)) eqn:E; [done|].
  rewrite lookup_insert_ne; [done|]. congruence.
Qed.

Lemma dict_fold_keep cat l d aid v :
  d !! aid = Some v → fold_left (dict_step cat) l d !! aid = Some v.
Proof.
  revert d. induction l as [|p l IH]; intros d H; simpl; [done|].
  apply IH. by apply dict_step_keep.
Qed.

(** Records of other groups, and excluded records, leave a key alone. *)
Lemma dict_step_other cat d p aid :
  (kept p = true → Z.abs (pdgid p) ≠ aid) →
  dict_step cat d p !! aid = d !! aid.
Proof.
  intros H. unfold dict_step. destruct (kept p); [|done].
  destruct (d !! Z.abs (pdgid p)); [done|].
  rewrite lookup_insert_ne; [done|]. by apply H.
Qed.

Lemma dict_fold_other cat l d aid :
  (∀ q, q ∈ l → kept q = true → Z.abs (pdgid q) ≠ aid) →
  fold_left (dict_step cat) l d !! aid = d !! aid.
Proof.
  revert d. induction l as [|p l IH]; intros d H; simpl; [done|].
  rewrite IH.
  - apply dict_step_other. apply H, list_elem_of_here.
  - intros q Hq. apply H. by apply list_elem_of_further.
Qed.

(** The record that opens a group fixes its representative. *)
Lemma dict_step_first cat d p :
  kept p = true → d !! Z.abs (pdgid p) = None →
  dict_step cat d p !! Z.abs (pdgid p) = Some (representative cat p).
Proof.
  intros Hk Hn. unfold dict_step. rewrite Hk, Hn. apply lookup_insert_eq.
Qed.

Lemma representative_ok cat p :
  p ∈ cat → kept p = true → entry_ok cat (Z.abs (pdgid p)) (representative cat p).
Proof.
  intros Hin Hk. unfold entry_ok.
  assert (Z.abs (representative cat p) = Z.abs (pdgid p)
          ∧ ∃ q, from_pdgid cat (representative cat p) = Ok q) as [Ha Hq].
  { unfold representative.
    destruct (from_pdgid cat (Z.abs (pdgid p))) as [q|e] eqn:E.
    - split; [lia|eauto].
    - split; [done|]. by apply from_pdgid_elem_of. }
  split; [done|]. split; [by apply kept_spec|]. split; [|done].
  exists p. done.
Qed.

Lemma dict_step_ok cat d p :
  p ∈ cat → dict_ok cat d → dict_ok cat (dict_step cat d p).
Proof.
  intros Hin Hd aid id. unfold dict_step.
  destruct (kept p) eqn:Hk; [|by apply Hd].
  destruct (d !! Z.abs (pdgid p)) eqn:E; [by apply Hd|].
  destruct (decide (Z.abs (pdgid p) = aid)) as [<-|Hne].
  - rewrite lookup_insert_eq. intros [= <-]. by apply representative_ok.
  - rewrite lookup_insert_ne by done. apply Hd.
Qed.

Lemma dict_fold_ok cat l d :
  (∀ p, p ∈ l → p ∈ cat) → dict_ok cat d →
  dict_ok cat (fold_left (dict_step cat) l d).
Proof.
  revert d. induction l as [|p l IH]; intros d Hl Hd; simpl; [done|].
  apply IH.
  - intros q Hq. apply Hl. by apply list_elem_of_further.
  - apply dict_step_ok; [|done]. apply Hl, list_elem_of_here.
Qed.

Lemma absid_to_pdgid_ok cat : dict_ok cat (absid_to_pdgid cat).
Proof.
  rewrite absid_to_pdgid_fold. apply dict_fold_ok; [done|].
  intros aid id. by rewrite lookup_empty.
Qed.

(** Every surviving record has its group in the dictionary. *)
Lemma dict_step_dom cat d p :
  kept p = true → is_Some (dict_step cat d p !! Z.abs (pdgid p)).
Proof.
  intros Hk. unfold dict_step. rewrite Hk.
  destruct (d !! Z.abs (pdgid p)) eqn:E; [by rewrite E|].
  rewrite lookup_insert_eq. eauto.
Qed.

Lemma dict_fold_dom cat l d p :
  p ∈ l → kept p = true →
  is_Some (fold_left (dict_step cat) l d !! Z.abs (pdgid p)).
Proof.
  revert d. induction l as [|q l IH]; intros d; [by intros ?%elem_of_nil|].
  intros [->|Hin]%elem_of_cons Hk; simpl; [|by apply IH].
  destruct (dict_step_dom cat d q Hk) as [v Hv].
  exists v. by apply dict_fold_keep.
Qed.

Lemma absid_to_pdgid_dom cat p :
  p ∈ cat → kept p = true → is_Some (absid_to_pdgid cat !! Z.abs (pdgid p)).
Proof. rewrite absid_to_pdgid_fold. apply dict_fold_dom. Qed.

(** ** Mass resolution *)

(** For the convention's identifiers the answer does not depend on the
    catalog at all. *)
Lemma forced_mass_mev_massless cat id :
  Z.abs id ∈ massless_ids → forced_mass_mev cat id = Ok F64.zero.
Proof.
  intros H. unfold forced_mass_mev. by rewrite bool_decide_eq_true_2.
Qed.

Lemma forced_mass_mev_lookup cat id p :
  Z.abs id ∉ massless_ids → from_pdgid cat id = Ok p →
  forced_mass_mev cat id =
    match mass p with
    | None => Raise (ValueError "no mass")
    | Some m => if F64.isnan m then Raise (ValueError "no mass") else Ok m
    end.
Proof.
  intros H Hp. unfold forced_mass_mev.
  rewrite bool_decide_eq_false_2 by done. by rewrite Hp.
Qed.

(** With the identifier in the catalog, the only failure is [ValueError]. *)
Lemma forced_mass_mev_cases cat id p :
  from_pdgid cat id = Ok p →
  (∃ m, forced_mass_mev cat id = Ok m)
  ∨ forced_mass_mev cat id = Raise (ValueError "no mass").
Proof.
  intros Hp. destruct (decide (Z.abs id ∈ massless_ids)) as [H|H].
  - left. eexists. by apply forced_mass_mev_massless.
  - rewrite (forced_mass_mev_lookup _ _ _ H Hp).
    destruct (mass p) as [m|]; [|by right].
    destruct (F64.isnan m); [by right|left; eauto].
Qed.

(** ** The rows loop *)

Lemma rows_loop_omap cat d keys rows :
  dict_ok cat d → (∀ aid, aid ∈ keys → is_Some (d !! aid)) →
  rows_loop cat d keys rows = Ok (rows ++ omap (row_of_key cat d) keys).
Proof.
  intros Hd. revert rows.
  induction keys as [|aid keys IH]; intros rows Hk; simpl.
  - by rewrite app_nil_r.
  - destruct (Hk aid) as [id Hid]; [apply list_elem_of_here|].
    assert (∀ a, a ∈ keys → is_Some (d !! a)) as Hk'.
    { intros a Ha. apply Hk. by apply list_elem_of_further. }
    unfold row_of_key at 1. rewrite Hid. simpl.
    destruct (Hd _ _ Hid) as (Habs & _ & _ & q & Hq).
    unfold row_of. rewrite Hq, Habs.
    destruct (forced_mass_mev_cases _ _ _ Hq) as [[m Hm]|Hm]; rewrite Hm; simpl.
    + rewrite IH by done. by rewrite <- app_assoc.
    + by apply IH.
Qed.

Lemma elem_of_sorted_keys (d : gmap Z Z) aid :
  aid ∈ sorted_keys d ↔ is_Some (d !! aid).
Proof.
  unfold sorted_keys. rewrite merge_sort_Permutation, elem_of_elements.
  apply elem_of_dom.
Qed.

(** The loop never raises: the table is the rows of the groups, in key order. *)
Lemma build_rows_omap cat :
  build_rows cat =
    Ok (omap (row_of_key cat (absid_to_pdgid cat))
             (sorted_keys (absid_to_pdgid cat))).
Proof.
  unfold build_rows. rewrite rows_loop_omap; [done|apply absid_to_pdgid_ok|].
  intros aid. by rewrite elem_of_sorted_keys.
Qed.

Lemma build_rows_total cat : ∃ rows, build_rows cat = Ok rows.
Proof. rewrite build_rows_omap. eauto. Qed.

Lemma elem_of_build_rows cat rows r :
  build_rows cat = Ok rows →
  r ∈ rows ↔ ∃ aid id, absid_to_pdgid cat !! aid = Some id ∧ row_of cat id = Some r.
Proof.
  rewrite build_rows_omap. intros [= <-]. rewrite list_elem_of_omap. split.
  - intros (aid & _ & Hr). unfold row_of_key in Hr.
    destruct (absid_to_pdgid cat !! aid) as [id|] eqn:E; [|done]. eauto.
  - intros (aid & id & Hid & Hr). exists aid. split.
    + apply elem_of_sorted_keys. eauto.
    + unfold row_of_key. by rewrite Hid.
Qed.

Lemma row_of_pdgid cat id r : row_of cat id = Some r → row_pdgid r = id.
Proof.
  unfold row_of. destruct (forced_mass_mev cat id); [|done].
  destruct (from_pdgid cat id); [|done]. by intros [= <-].
Qed.

(** The keys are visited in strictly ascending order. *)
Lemma sorted_keys_lt (d : gmap Z Z) : StronglySorted Z.lt (sorted_keys d).
Proof.
  unfold sorted_keys.
  assert (NoDup (merge_sort Z.le (elements (dom d)))) as Hnd.
  { rewrite merge_sort_Permutation. apply NoDup_elements. }
  assert (StronglySorted Z.le (merge_sort Z.le (elements (dom d)))) as Hs.
  { apply StronglySorted_merge_sort; [intros x y z; lia|intros x y; lia]. }
  induction Hs as [|a l Hs IH Hall]; [constructor|].
  apply NoDup_cons in Hnd as [Hna Hnd].
  constructor; [by apply IH|].
  apply Forall_forall. intros x Hx.
  rewrite Forall_forall in Hall. specialize (Hall x Hx).
  assert (a ≠ x) by (intros ->; done). lia.
Qed.

Lemma omap_sorted {A : Type} (f : Z → option A) (key : A → Z) (l : list Z) :
  (∀ k a, f k = Some a → key a = k) →
  StronglySorted Z.lt l → StronglySorted Z.lt (key <$> omap f l).
Proof.
  intros Hf. induction 1 as [|k l Hs IH Hall]; simpl; [constructor|].
  destruct (f k) as [a|] eqn:E; [|done].
  simpl. constructor; [done|].
  apply Forall_forall. intros x Hx.
  apply list_elem_of_fmap in Hx as (b & -> & Hb).
  apply list_elem_of_omap in Hb as (k' & Hk' & Hb).
  rewrite (Hf _ _ E), (Hf _ _ Hb).
  rewrite Forall_forall in Hall. by apply Hall.
Qed.

Lemma StronglySorted_lt_NoDup (l : list Z) : StronglySorted Z.lt l → NoDup l.
Proof.
  induction 1 as [|a l Hs IH Hall]; constructor; [|done].
  intros Hin. rewrite Forall_forall in Hall. specialize (Hall a Hin). lia.
Qed.

(** ** Excluded records do not take part *)

Lemma from_pdgid_filter_kept cat v :
  kept_id (Z.abs v) → from_pdgid (List.filter kept cat) v = from_pdgid cat v.
Proof.
  intros Hv. induction cat as [|q cat IH]; simpl; [done|].
  destruct (pdgid q =? v) eqn:E.
  - apply Z.eqb_eq in E. subst v. apply kept_spec in Hv. rewrite Hv. simpl.
    by rewrite Z.eqb_refl.
  - destruct (kept q); simpl; [by rewrite E|done].
Qed.

Lemma dict_fold_filter_kept c l d :
  fold_left (dict_step c) (List.filter kept l) d = fold_left (dict_step c) l d.
Proof.
  revert d. induction l as [|p l IH]; intros d; simpl; [done|].
  destruct (kept p) eqn:Hk; simpl; [done|].
  rewrite IH. unfold dict_step at 3. by rewrite Hk.
Qed.

Lemma dict_step_filter_kept cat d p :
  dict_step (List.filter kept cat) d p = dict_step cat d p.
Proof.
  unfold dict_step. destruct (kept p) eqn:Hk; [|done].
  unfold representative. rewrite from_pdgid_filter_kept; [done|].
  rewrite Z.abs_idemp. by apply kept_spec.
Qed.

Lemma absid_to_pdgid_filter_kept cat :
  absid_to_pdgid (List.filter kept cat) = absid_to_pdgid cat.
Proof.
  rewrite !absid_to_pdgid_fold, dict_fold_filter_kept.
  generalize (∅ : gmap Z Z). generalize cat at 2 4.
  induction cat0 as [|p l IH]; intros d; simpl; [done|].
  by rewrite dict_step_filter_kept, IH.
Qed.

Lemma row_of_filter_kept cat id :
  kept_id (Z.abs id) → row_of (List.filter kept cat) id = row_of cat id.
Proof.
  intros Hk. unfold row_of, forced_mass_mev, str_stored.
  rewrite (from_pdgid_filter_kept cat id) by done.
  rewrite (from_pdgid_filter_kept cat (Z.abs id)); [done|].
  by rewrite Z.abs_idemp.
Qed.

Lemma omap_ext_elem_of {A B : Type} (f g : A → option B) (l : list A) :
  (∀ x, x ∈ l → f x = g x) → omap f l = omap g l.
Proof.
  induction l as [|a l IH]; intros H; simpl; [done|].
  rewrite (H a) by apply list_elem_of_here.
  assert (omap f l = omap g l) as IH'.
  { apply IH. intros x Hx. apply H. by apply list_elem_of_further. }
  destruct (g a); [f_equal|]; exact IH'.
Qed.

Lemma build_rows_filter_kept cat :
  build_rows (List.filter kept cat) = build_rows cat.
Proof.
  rewrite !build_rows_omap, absid_to_pdgid_filter_kept. f_equal.
  apply omap_ext_elem_of. intros aid _. unfold row_of_key.
  destruct (absid_to_pdgid cat !! aid) as [id|] eqn:E; [|done]. simpl.
  apply row_of_filter_kept.
  destruct (absid_to_pdgid_ok cat _ _ E) as (-> & Hk & _). done.
Qed.

(** ** Rows and groups *)

Lemma row_abs_key cat aid r :
  row_of_key cat (absid_to_pdgid cat) aid = Some r → Z.abs (row_pdgid r) = aid.
Proof.
  unfold row_of_key. destruct (absid_to_pdgid cat !! aid) as [id|] eqn:E; [|done].
  simpl. intros ->%row_of_pdgid.
  by destruct (absid_to_pdgid_ok cat _ _ E) as (-> & _).
Qed.

(** Every row comes from a group of the dictionary. *)
Lemma row_entry cat rows r :
  build_rows cat = Ok rows → r ∈ rows →
  absid_to_pdgid cat !! Z.abs (row_pdgid r) = Some (row_pdgid r)
  ∧ row_of cat (row_pdgid r) = Some r.
Proof.
  intros Hb Hr. apply (elem_of_build_rows _ _ _ Hb) in Hr as (aid & id & Hid & Hr).
  pose proof (row_of_pdgid _ _ _ Hr) as ->.
  by destruct (absid_to_pdgid_ok cat _ _ Hid) as (-> & _).
Qed.

(** ** The sample run *)

Lemma sample_build_rows : build_rows sample_catalog = Ok sample_rows.
Proof. vm_compute. reflexivity. Qed.

(** ** Zero masses and the mass field *)

Lemma eqb_zero_iff (x : float) :
  F64.eqb x F64.zero = true ↔ ∃ s, x = S754_zero s.
Proof.
  split.
  - destruct x as [s|s| |s m e]; simpl; try discriminate; [eauto| |].
    + by destruct s.
    + unfold F64.eqb, SFeqb. simpl. by destruct s.
  - by intros [s ->].
Qed.

Lemma mul_zero_l s : F64.mul (S754_zero s) MEV_TO_KG = S754_zero s.
Proof. by destruct s. Qed.

Lemma m_kg_str_zero s : m_kg_str (S754_zero s) = "0.0".
Proof. reflexivity. Qed.

Lemma length_digits_fixed n v : length (PyFormat.digits_fixed n v) = n.
Proof.
  revert v. induction n as [|n IH]; intros v; simpl; [done|].
  rewrite length_app, IH. simpl. lia.
Qed.

Lemma length_with_point int frac :
  (length frac <= length (PyFormat.with_point int frac))%nat.
Proof.
  destruct frac as [|c frac]; simpl; [lia|].
  rewrite length_app. simpl. lia.
Qed.

(** The scientific notation never reads ["0.0"]. *)
Lemma format_e_not_literal x : PyFormat.format_e 10 x ≠ "0.0".
Proof.
  intros H. destruct x as [s|s| |s m e].
  - destruct s; vm_compute in H; discriminate.
  - destruct s; vm_compute in H; discriminate.
  - vm_compute in H; discriminate.
  - apply (f_equal list_ascii_of_string) in H.
    unfold PyFormat.format_e in H.
    rewrite list_ascii_of_string_of_list_ascii in H.
    apply (f_equal length) in H.
    destruct (PyFormat.round_sig 11 m e) as [r k].
    rewrite !length_app in H.
    pose proof (length_with_point
      (PyFormat.digits_fixed 1 (r / 10 ^ Z.of_nat 10))
      (PyFormat.digits_fixed 10 r)) as Hl.
    rewrite length_digits_fixed in Hl.
    change (length (list_ascii_of_string "0.0")) with 3%nat in H. lia.
Qed.

Lemma m_kg_str_literal_iff x :
  m_kg_str x = "0.0" ↔ F64.eqb x F64.zero = true.
Proof.
  unfold m_kg_str, F64.neqb. destruct (F64.eqb x F64.zero); simpl.
  - done.
  - split; [|done]. intros H. by apply format_e_not_literal in H.
Qed.

(** ** Groups and their rows *)

(** A group whose mass resolves has its row in the table. *)
Lemma group_row cat rows aid id m_mev :
  build_rows cat = Ok rows →
  absid_to_pdgid cat !! aid = Some id → forced_mass_mev cat id = Ok m_mev →
  ∃ r, r ∈ rows ∧ row_pdgid r = id ∧ row_m_mev r = m_mev
       ∧ row_m_kg r = F64.mul m_mev MEV_TO_KG.
Proof.
  intros Hb Hid Hm.
  destruct (absid_to_pdgid_ok cat _ _ Hid) as (_ & _ & _ & q & Hq).
  eexists. split.
  - apply (elem_of_build_rows _ _ _ Hb). exists aid, id. split; [done|].
    unfold row_of. rewrite Hm, Hq. reflexivity.
  - done.
Qed.

(** A row carries the mass that resolution returned for its identifier. *)
Lemma row_mass cat rows r :
  build_rows cat = Ok rows → r ∈ rows →
  forced_mass_mev cat (row_pdgid r) = Ok (row_m_mev r)
  ∧ row_m_kg r = F64.mul (row_m_mev r) MEV_TO_KG
  ∧ ∃ p, from_pdgid cat (row_pdgid r) = Ok p
         ∧ row_name r =
             name_or (name p)
               ("PDG" +:+ str_stored cat (Z.abs (row_pdgid r)) (row_pdgid r)).
Proof.
  intros Hb Hr. destruct (row_entry _ _ _ Hb Hr) as [_ Hrow].
  unfold row_of in Hrow.
  destruct (forced_mass_mev cat (row_pdgid r)) as [m|]; [|done].
  destruct (from_pdgid cat (row_pdgid r)) as [p|]; [|done].
  injection Hrow as <-. simpl. eauto.
Qed.

(** Which object a row holds: the plain integer when the positive form is in
    the catalog, and then the identifier is not negative; the record's
    [PDGID] object otherwise, and then the identifier is negative. *)
Lemma row_str_stored cat rows r :
  build_rows cat = Ok rows → r ∈ rows →
  match from_pdgid cat (Z.abs (row_pdgid r)) with
  | Ok _ =>
      0 <= row_pdgid r
      ∧ str_stored cat (Z.abs (row_pdgid r)) (row_pdgid r)
        = PyFormat.str_int (row_pdgid r)
  | Raise _ =>
      row_pdgid r < 0
      ∧ str_stored cat (Z.abs (row_pdgid r)) (row_pdgid r)
        = PyFormat.str_PDGID (row_pdgid r)
  end.
Proof.
  intros Hb Hr. destruct (row_entry _ _ _ Hb Hr) as [Hid _].
  destruct (absid_to_pdgid_ok cat _ _ Hid)
    as (_ & _ & (p & _ & _ & Hp & Hrep) & q & Hq).
  unfold str_stored. unfold representative in Hrep. rewrite Hp in Hrep.
  destruct (from_pdgid cat (Z.abs (row_pdgid r))) as [a|e] eqn:E.
  - split; [lia|done].
  - split; [|done].
    destruct (decide (row_pdgid r < 0)) as [|Hn]; [done|].
    rewrite Z.abs_eq in E by lia. congruence.
Qed.

(** A group whose mass does not resolve has no row. *)
Lemma group_no_row cat rows aid id e :
  build_rows cat = Ok rows →
  absid_to_pdgid cat !! aid = Some id → forced_mass_mev cat id = Raise e →
  ∀ r, r ∈ rows → Z.abs (row_pdgid r) ≠ aid.
Proof.
  intros Hb Hid Hm r Hr Habs.
  destruct (row_entry _ _ _ Hb Hr) as [Hd _].
  destruct (row_mass _ _ _ Hb Hr) as [Hm' _].
  rewrite Habs in Hd. congruence.
Qed.

Lemma script_finishes env w cat :
  particle_pkg env = Some cat → fst (script env w) = Finished.
Proof.
  intros Hp. unfold script. rewrite Hp.
  pose proof (build_rows_total cat) as [rows Hb].
  unfold build_rows, absid_to_pdgid in Hb.
  destruct (grouping cat) as [d out]. simpl in Hb. by rewrite Hb.
Qed.

Lemma group_of_positive_record cat p :
  p ∈ cat → kept p = true → 0 <= pdgid p →
  absid_to_pdgid cat !! pdgid p = Some (pdgid p).
Proof.
  intros Hin Hk Hpos.
  destruct (absid_to_pdgid_dom cat p Hin Hk) as [id Hid].
  destruct (absid_to_pdgid_ok cat _ _ Hid) as (_ & _ & (q & _ & _ & Hq & ->) & _).
  assert (Z.abs (pdgid p) = pdgid p) as Habs by lia.
  rewrite Habs in Hid, Hq. rewrite Hid. f_equal.
  unfold representative. rewrite Hq.
  destruct (from_pdgid_elem_of cat p Hin) as [p' Hp']. by rewrite Hp'.
Qed.

Lemma omap_filter_none {A : Type} (f : Z → option A) (l : list Z) aid :
  f aid = None →
  omap f (List.filter (λ k, negb (k =? aid)) l) = omap f l.
Proof.
  intros Hf. induction l as [|k l IH]; simpl; [done|].
  destruct (k =? aid) eqn:E; simpl.
  - apply Z.eqb_eq in E. subst k. by rewrite Hf.
  - destruct (f k); [f_equal|]; exact IH.
Qed.

(** ** The range of a binary64 product *)

Lemma digits2_pos_bound p :
  2 ^ (Z.pos (digits2_pos p) - 1) <= Z.pos p < 2 ^ Z.pos (digits2_pos p).
Proof.
  induction p as [p IH|p IH|]; simpl digits2_pos.
  - rewrite Pos2Z.inj_succ, (Pos2Z.inj_xI p).
    replace (Z.succ (Z.pos (digits2_pos p)) - 1)
      with (Z.succ (Z.pos (digits2_pos p) - 1)) by lia.
    rewrite !Z.pow_succ_r by lia. lia.
  - rewrite Pos2Z.inj_succ, (Pos2Z.inj_xO p).
    replace (Z.succ (Z.pos (digits2_pos p)) - 1)
      with (Z.succ (Z.pos (digits2_pos p) - 1)) by lia.
    rewrite !Z.pow_succ_r by lia. lia.
  - simpl. lia.
Qed.

Lemma Zdigits2_le x k : 0 <= x < 2 ^ k → 0 <= k → Zdigits2 x <= k.
Proof.
  intros [H0 Hx] Hk. destruct x as [|p|p]; simpl; [done| |lia].
  destruct (digits2_pos_bound p) as [Hl _].
  destruct (Z_le_gt_dec (Z.pos (digits2_pos p)) k) as [|Hgt]; [done|].
  assert (2 ^ k <= 2 ^ (Z.pos (digits2_pos p) - 1)).
  { apply Z.pow_le_mono_r; lia. }
  lia.
Qed.

Lemma shr_1_m mrs : 0 <= shr_m mrs → shr_m (shr_1 mrs) = shr_m mrs / 2.
Proof.
  destruct mrs as [m r s]. simpl. intros Hm.
  destruct m as [|[p|p|]|p]; simpl; try lia; try reflexivity.
  - rewrite (Pos2Z.inj_xI p). apply Z.div_unique with 1; lia.
  - rewrite (Pos2Z.inj_xO p). apply Z.div_unique with 0; lia.
Qed.

Lemma iter_shr_1_m p mrs :
  0 <= shr_m mrs →
  shr_m (SpecFloat.iter_pos shr_1 p mrs) = shr_m mrs / 2 ^ Z.pos p.
Proof.
  revert mrs. induction p as [p IH|p IH|]; intros mrs Hm; simpl SpecFloat.iter_pos.
  - assert (0 <= shr_m (shr_1 mrs)) as H1.
    { rewrite shr_1_m by done. apply Z.div_pos; lia. }
    assert (0 <= shr_m (SpecFloat.iter_pos shr_1 p (shr_1 mrs))) as H2.
    { rewrite IH by done. apply Z.div_pos; [done|]. apply Z.pow_pos_nonneg; lia. }
    rewrite IH, IH, shr_1_m by done.
    rewrite !Z.div_div by (try apply Z.pow_pos_nonneg; lia).
    f_equal. rewrite (Pos2Z.inj_xI p).
    replace (2 * Z.pos p + 1) with (1 + Z.pos p + Z.pos p) by lia.
    rewrite !Z.pow_add_r by lia. lia.
  - assert (0 <= shr_m (SpecFloat.iter_pos shr_1 p mrs)) as H2.
    { rewrite IH by done. apply Z.div_pos; [done|]. apply Z.pow_pos_nonneg; lia. }
    rewrite IH, IH by done.
    rewrite !Z.div_div by (try apply Z.pow_pos_nonneg; lia).
    f_equal. rewrite (Pos2Z.inj_xO p).
    replace (2 * Z.pos p) with (Z.pos p + Z.pos p) by lia.
    rewrite !Z.pow_add_r by lia. lia.
  - rewrite shr_1_m by done. reflexivity.
Qed.

Lemma shr_record_of_loc_m m l : shr_m (shr_record_of_loc m l) = m.
Proof. by destruct l as [|[| |]]. Qed.

(** One alignment step leaves at most 53 bits, at an exponent of at least
    [emin]. *)
Lemma shr_fexp_bound m e l :
  0 <= m →
  0 <= shr_m (fst (shr_fexp F64.prec F64.emax m e l))
  ∧ Zdigits2 (shr_m (fst (shr_fexp F64.prec F64.emax m e l))) <= 53
  ∧ -1074 <= snd (shr_fexp F64.prec F64.emax m e l).
Proof.
  intros Hm. unfold shr_fexp, shr, fexp, emin, F64.prec, F64.emax.
  assert (0 <= Zdigits2 m ∧ m < 2 ^ Zdigits2 m) as [Hd0 Hd].
  { destruct m as [|p|p]; simpl; [lia| |lia].
    split; [lia|apply digits2_pos_bound]. }
  set (d := Zdigits2 m) in *.
  destruct (Z.max (d + e - 53) (3 - 1024 - 53) - e) as [|n|n] eqn:En; simpl;
    rewrite ?shr_record_of_loc_m.
  - split; [done|]. split; [fold d|]; lia.
  - rewrite iter_shr_1_m by (by rewrite shr_record_of_loc_m).
    rewrite shr_record_of_loc_m.
    assert (0 < 2 ^ Z.pos n) by (apply Z.pow_pos_nonneg; lia).
    split; [apply Z.div_pos; lia|]. split; [|lia].
    apply Z.le_trans with (Z.max (d - Z.pos n) 0); [|lia].
    apply Zdigits2_le; [|lia]. split; [apply Z.div_pos; lia|].
    apply Z.div_lt_upper_bound; [lia|].
    rewrite <- Z.pow_add_r by lia.
    apply Z.lt_le_trans with (2 ^ d); [done|].
    apply Z.pow_le_mono_r; lia.
  - split; [done|]. split; [fold d|]; lia.
Qed.

Lemma round_nearest_even_nonneg m l : 0 <= m → 0 <= round_nearest_even m l.
Proof.
  intros Hm. destruct l as [|[| |]]; simpl; try lia.
  destruct (Z.even m); lia.
Qed.

Lemma binary_round_aux_in_range sx mx ex lx :
  0 <= mx →
  F64.in_range (binary_round_aux F64.prec F64.emax sx mx ex lx) = true.
Proof.
  intros Hm. unfold binary_round_aux.
  pose proof (shr_fexp_bound mx ex lx Hm) as (H1 & _ & _).
  destruct (shr_fexp F64.prec F64.emax mx ex lx) as [mrs' e']. simpl in H1.
  pose proof (shr_fexp_bound
    (round_nearest_even (shr_m mrs') (loc_of_shr_record mrs')) e' loc_Exact
    (round_nearest_even_nonneg _ _ H1)) as (_ & H2 & H3).
  destruct (shr_fexp F64.prec F64.emax _ e' loc_Exact) as [mrs'' e''].
  simpl in H2, H3.
  destruct (shr_m mrs'') as [|m|m]; [done| |done].
  change (F64.emax - F64.prec) with 971.
  destruct (e'' <=? 971) eqn:E; [|done].
  simpl in H2. unfold F64.in_range, F64.prec.
  rewrite E. rewrite andb_true_r, andb_true_iff, !Z.leb_le. lia.
Qed.

(** The product of any two floats is in range. *)
Lemma mul_in_range x y : F64.in_range (F64.mul x y) = true.
Proof.
  destruct x as [sx|sx| |sx mx ex], y as [sy|sy| |sy my ey]; try done.
  apply binary_round_aux_in_range. lia.
Qed.

(** ** The rounding error of a binary64 product *)

Lemma shr_1_inv mx n mrs :
  0 <= n → shr_inv mx n mrs → shr_inv mx (n + 1) (shr_1 mrs).
Proof.
  intros Hn (rem & Hmx & Hrem & Hr & Hs & Hm). unfold shr_inv.
  destruct mrs as [m r s]. simpl in *.
  rewrite Z.pow_add_r by lia. change (2 ^ 1) with 2.
  assert (0 < 2 ^ n) as HT by (apply Z.pow_pos_nonneg; lia).
  set (T := 2 ^ n) in *. clearbody T.
  destruct m as [|[p|p|]|p]; simpl; try lia.
  - exists rem. simpl. destruct r, s; simpl; intuition lia.
  - exists (T + rem). rewrite (Pos2Z.inj_xI p) in Hmx.
    destruct r, s; simpl; intuition lia.
  - exists rem. rewrite (Pos2Z.inj_xO p) in Hmx.
    destruct r, s; simpl; intuition lia.
  - exists (T + rem). destruct r, s; simpl; intuition lia.
Qed.

Lemma iter_shr_1_inv mx p n mrs :
  0 <= n → shr_inv mx n mrs →
  shr_inv mx (n + Z.pos p) (SpecFloat.iter_pos shr_1 p mrs).
Proof.
  revert n mrs. induction p as [p IH|p IH|]; intros n mrs Hn H;
    simpl SpecFloat.iter_pos.
  - rewrite (Pos2Z.inj_xI p).
    replace (n + (2 * Z.pos p + 1)) with (n + 1 + Z.pos p + Z.pos p) by lia.
    apply IH; [lia|]. apply IH; [lia|]. by apply shr_1_inv.
  - rewrite (Pos2Z.inj_xO p).
    replace (n + 2 * Z.pos p) with (n + Z.pos p + Z.pos p) by lia.
    apply IH; [lia|]. by apply IH.
  - by apply shr_1_inv.
Qed.

Lemma round_nearest_even_error mx n mrs :
  0 <= n → shr_inv mx n mrs →
  let m2 := round_nearest_even (shr_m mrs) (loc_of_shr_record mrs) in
  2 * Z.abs (m2 * 2 ^ n - mx) <= 2 ^ n ∧ shr_m mrs <= m2 <= shr_m mrs + 1.
Proof.
  intros Hn (rem & Hmx & Hrem & Hr & Hs & Hm).
  destruct mrs as [m r s]. simpl in *.
  assert (0 < 2 ^ n) as HT by (apply Z.pow_pos_nonneg; lia).
  set (T := 2 ^ n) in *. clearbody T.
  destruct r, s; simpl; try destruct (Z.even m); split; try lia;
    try (assert (m * T = mx - rem) by lia;
         assert ((m + 1) * T = mx - rem + T) by lia; intuition lia).
Qed.

Lemma shr_fexp_inv m e :
  0 <= m →
  let n := Z.max 0 (Z.max (Zdigits2 m + e - 53) (-1074) - e) in
  snd (shr_fexp F64.prec F64.emax m e loc_Exact) = e + n
  ∧ shr_inv m n (fst (shr_fexp F64.prec F64.emax m e loc_Exact)).
Proof.
  intros Hm. unfold shr_fexp, shr, fexp, emin, F64.prec, F64.emax.
  change (3 - 1024 - 53) with (-1074).
  assert (shr_inv m 0 (shr_record_of_loc m loc_Exact)) as H0.
  { exists 0. simpl. intuition lia. }
  destruct (Z.max (Zdigits2 m + e - 53) (-1074) - e) as [|p|p] eqn:E; simpl.
  - split; [lia|done].
  - split; [lia|]. rewrite Z.max_r by lia.
    apply (iter_shr_1_inv m p 0); [lia|done].
  - split; [lia|]. rewrite Z.max_l by lia. done.
Qed.

Lemma Zdigits2_lt x : 0 <= x → x < 2 ^ Zdigits2 x.
Proof.
  intros Hx. destruct x as [|p|p]; simpl; [lia| |lia].
  apply digits2_pos_bound.
Qed.

Lemma Zdigits2_ge x : 0 < x → 2 ^ (Zdigits2 x - 1) <= x.
Proof.
  intros Hx. destruct x as [|p|p]; simpl; [lia| |lia].
  apply digits2_pos_bound.
Qed.

(** Rounding a positive integer mantissa [mx] at exponent [ex]: the result is
    within half a unit in the last place of [mx * 2^ex]. *)
Lemma binary_round_aux_error sx mx ex s m e :
  0 < mx →
  binary_round_aux F64.prec F64.emax sx mx ex loc_Exact = S754_finite s m e →
  s = sx
  ∧ ∃ n k, e = ex + n + k ∧ 0 <= n ∧ 0 <= k <= 1
           ∧ 2 * Z.abs (Z.pos m * 2 ^ (n + k) - mx) <= 2 ^ n.
Proof.
  intros Hmx. unfold binary_round_aux.
  pose proof (shr_fexp_inv mx ex ltac:(lia)) as [He' Hinv].
  pose proof (shr_fexp_bound mx ex loc_Exact ltac:(lia)) as (H1 & Hd1 & _).
  destruct (shr_fexp F64.prec F64.emax mx ex loc_Exact) as [mrs' e'].
  simpl in He', Hinv, H1, Hd1.
  set (n := Z.max 0 (Z.max (Zdigits2 mx + ex - 53) (-1074) - ex)) in *.
  assert (0 <= n) as Hn by lia.
  pose proof (round_nearest_even_error mx n mrs' Hn Hinv) as [Herr Hm2].
  set (m2 := round_nearest_even (shr_m mrs') (loc_of_shr_record mrs')) in *.
  assert (shr_m mrs' < 2 ^ 53) as Hlt.
  { apply Z.lt_le_trans with (2 ^ Zdigits2 (shr_m mrs')).
    - by apply Zdigits2_lt.
    - apply Z.pow_le_mono_r; lia. }
  assert (Zdigits2 m2 <= 54) as Hd2.
  { apply Zdigits2_le; [|lia]. change (2 ^ 54) with (2 * 2 ^ 53). lia. }
  pose proof (shr_fexp_inv m2 e' ltac:(lia)) as [He'' Hinv2].
  destruct (shr_fexp F64.prec F64.emax m2 e' loc_Exact) as [mrs'' e''].
  simpl in He'', Hinv2.
  set (k := Z.max 0 (Z.max (Zdigits2 m2 + e' - 53) (-1074) - e')) in *.
  destruct (shr_m mrs'') as [|m3|m3] eqn:Em3; [done| |done].
  destruct (e'' <=? F64.emax - F64.prec); [|done].
  intros [= <- <- <-]. split; [done|].
  exists n, k.
  assert (0 <= k <= 1) as Hk by lia.
  split; [lia|]. split; [done|]. split; [done|].
  destruct Hinv2 as (rem & Hm2eq & Hrem & _). rewrite Em3 in Hm2eq.
  assert (Z.pos m3 * 2 ^ k = m2) as Hexact.
  { destruct (decide (k = 0)) as [Hk0|Hk0].
    - rewrite Hk0 in *. simpl in *. lia.
    - assert (k = 1) as Hk1 by lia. rewrite Hk1 in *.
      change (2 ^ 1) with 2 in *.
      assert (Zdigits2 m2 = 54) as Hd54 by lia.
      assert (0 < m2) as Hm2pos by (destruct m2; simpl in *; lia).
      pose proof (Zdigits2_ge m2 Hm2pos) as Hge. rewrite Hd54 in Hge.
      change (2 ^ (54 - 1)) with (2 ^ 53) in Hge.
      assert (m2 = 2 ^ 53) as Hm2v by lia.
      rewrite Hm2v in *. change (2 ^ 53) with (2 * 2 ^ 52) in Hm2eq. lia. }
  replace (n + k) with (k + n) by lia.
  rewrite Z.pow_add_r by lia. rewrite Z.mul_assoc, Hexact. done.
Qed.

Lemma mul_error sx mx ex sy my ey s m e :
  F64.mul (S754_finite sx mx ex) (S754_finite sy my ey) = S754_finite s m e →
  s = xorb sx sy
  ∧ ∃ n k, e = ex + ey + n + k ∧ 0 <= n ∧ 0 <= k <= 1
           ∧ 2 * Z.abs (Z.pos m * 2 ^ (n + k) - Z.pos mx * Z.pos my) <= 2 ^ n.
Proof.
  unfold F64.mul. simpl. intros H.
  apply binary_round_aux_error in H; [|lia].
  rewrite Pos2Z.inj_mul in H. done.
Qed.


Lemma mul_MEV_TO_KG_error sm mm em s mk ek :
  F64.mul (S754_finite sm mm em) MEV_TO_KG = S754_finite s mk ek →
  -1074 <= em → 2 ^ 52 <= Z.pos mk →
  s = sm
  ∧ 2 ^ 51 * Z.abs (F64.units (S754_finite s mk ek) * 10 ^ 38
                    - F64.units (S754_finite sm mm em) * 178266192)
    <= F64.units (S754_finite sm mm em) * 178266192.
Proof.
  intros Hmul Hem Hnormal.
  pose proof (mul_in_range (S754_finite sm mm em) MEV_TO_KG) as Hr.
  rewrite Hmul in Hr. unfold F64.in_range in Hr.
  rewrite !andb_true_iff, !Z.leb_le in Hr. destruct Hr as [[_ Hek] _].
  unfold MEV_TO_KG in Hmul.
  apply mul_error in Hmul as (-> & n & k & He & Hn & Hk & Herr).
  split; [by destruct sm|]. simpl F64.units.
  assert (0 < 2 ^ (em + 1074)) as HB by (apply Z.pow_pos_nonneg; lia).
  assert (Z.pos mk * 2 ^ (ek + 1074) * 2 ^ 151
          = Z.pos mk * 2 ^ (n + k) * 2 ^ (em + 1074)) as HU.
  { rewrite <- !Z.mul_assoc, <- !Z.pow_add_r by lia. do 2 f_equal. lia. }
  assert (2 ^ n <= 2 ^ (n + k)) as HT by (apply Z.pow_le_mono_r; lia).
  assert (0 < 2 ^ n) as HT0 by (apply Z.pow_pos_nonneg; lia).
  set (B := 2 ^ (em + 1074)) in *.
  set (U := Z.pos mk * 2 ^ (ek + 1074)) in *.
  set (X := Z.pos mk * 2 ^ (n + k)) in *.
  set (T := 2 ^ n) in *.
  assert (2 ^ 52 * T <= X) as HX by (unfold X; nia).
  assert (2 ^ 51 * Z.abs (X * 10 ^ 38 - Z.pos mm * (178266192 * 2 ^ 151))
          <= Z.pos mm * (178266192 * 2 ^ 151)) as Hmant.
  { clearbody X T. clear -Herr HX HT0. lia. }
  assert (2 ^ 51 * Z.abs ((X * 10 ^ 38 - Z.pos mm * (178266192 * 2 ^ 151)) * B)
          <= Z.pos mm * (178266192 * 2 ^ 151) * B) as HmantB.
  { rewrite Z.abs_mul, (Z.abs_eq B) by lia. nia. }
  replace ((X * 10 ^ 38 - Z.pos mm * (178266192 * 2 ^ 151)) * B)
    with ((U * 10 ^ 38 - Z.pos mm * B * 178266192) * 2 ^ 151) in HmantB
    by (rewrite !Z.mul_sub_distr_r; f_equal; [|ring];
        rewrite <- (Z.mul_assoc U), (Z.mul_comm (10 ^ 38)), Z.mul_assoc, HU; ring).
  rewrite Z.abs_mul in HmantB.
  clearbody U B X T. clear -HmantB. lia.
Qed.

(** ** The width of the mass field *)



Lemma exp_up_spec fuel p n k :
  0 < p → p <= n →
  k <= PyFormat.exp_up fuel p n k
  ∧ p * 10 ^ (PyFormat.exp_up fuel p n k - k) <= n.
Proof.
  revert p k. induction fuel as [|fuel IH]; intros p k Hp Hn; simpl.
  - rewrite Z.sub_diag. simpl. lia.
  - destruct (10 * p <=? n) eqn:E.
    + apply Z.leb_le in E.
      destruct (IH (10 * p) (k + 1)) as [H1 H2]; [lia|done|].
      split; [lia|].
      replace (PyFormat.exp_up fuel (10 * p) n (k + 1) - k)
        with (Z.succ (PyFormat.exp_up fuel (10 * p) n (k + 1) - (k + 1))) by lia.
      rewrite Z.pow_succ_r by lia. lia.
    + rewrite Z.sub_diag. simpl. lia.
Qed.

Lemma exp_down_spec fuel q d k :
  PyFormat.exp_down fuel q d k <= k
  ∧ (PyFormat.exp_down fuel q d k = k
     ∨ q * 10 ^ (k - PyFormat.exp_down fuel q d k - 1) < d).
Proof.
  revert q k. induction fuel as [|fuel IH]; intros q k; simpl; [lia|].
  destruct (d <=? q) eqn:E; [lia|]. apply Z.leb_gt in E.
  destruct (IH (10 * q) (k - 1)) as [H1 [H2|H2]].
  - split; [lia|]. right. rewrite H2.
    replace (k - (k - 1) - 1) with 0 by lia. simpl. lia.
  - split; [lia|]. right.
    set (k' := PyFormat.exp_down fuel (10 * q) d (k - 1)) in *.
    destruct (Z_le_gt_dec 0 (k - 1 - k' - 1)) as [Hge|Hlt].
    + replace (k - k' - 1) with (Z.succ (k - 1 - k' - 1)) by lia.
      rewrite Z.pow_succ_r by lia. lia.
    + assert (k' = k - 1) as -> by lia.
      replace (k - (k - 1) - 1) with 0 by lia. simpl. lia.
Qed.






Lemma string_length_of_list (l : list ascii) :
  String.length (string_of_list_ascii l) = length l.
Proof. induction l as [|c l IH]; simpl; [done|]. by rewrite IH. Qed.








(** ** Correct rounding to significant decimal digits *)

Lemma num_den_pos m e :
  0 < fst (PyFormat.num_den m e) ∧ 0 < snd (PyFormat.num_den m e).
Proof.
  unfold PyFormat.num_den. destruct (0 <=? e) eqn:E; simpl.
  - apply Z.leb_le in E.
    assert (0 < 2 ^ e) by (apply Z.pow_pos_nonneg; lia). nia.
  - apply Z.leb_gt in E.
    assert (0 < 2 ^ (- e)) by (apply Z.pow_pos_nonneg; lia). lia.
Qed.

Lemma scale10_pos n d s :
  0 < n → 0 < d →
  0 < fst (PyFormat.scale10 (n, d) s) ∧ 0 < snd (PyFormat.scale10 (n, d) s).
Proof.
  intros Hn Hd. unfold PyFormat.scale10. destruct (0 <=? s) eqn:E; simpl.
  - apply Z.leb_le in E.
    assert (0 < 10 ^ s) by (apply Z.pow_pos_nonneg; lia). nia.
  - apply Z.leb_gt in E.
    assert (0 < 10 ^ (- s)) by (apply Z.pow_pos_nonneg; lia). nia.
Qed.

(** Two scalings of one fraction, [t] decimal places apart. *)
Lemma scale10_shift n d s t :
  0 <= t →
  fst (PyFormat.scale10 (n, d) (s + t)) * snd (PyFormat.scale10 (n, d) s)
  = fst (PyFormat.scale10 (n, d) s) * snd (PyFormat.scale10 (n, d) (s + t))
    * 10 ^ t.
Proof.
  intros Ht. unfold PyFormat.scale10.
  destruct (0 <=? s) eqn:E1, (0 <=? s + t) eqn:E2; simpl;
    rewrite ?Z.leb_le, ?Z.leb_gt in *; try lia.
  - rewrite Z.pow_add_r by lia. ring.
  - replace (10 ^ t) with (10 ^ (s + t) * 10 ^ (- s)); [ring|].
    rewrite <- Z.pow_add_r by lia. f_equal. lia.
  - replace (- s) with (- (s + t) + t) at 1 by lia.
    rewrite Z.pow_add_r by lia. ring.
Qed.

Lemma pow2_le_pow10 a : 0 <= a → 2 ^ a <= 10 ^ a.
Proof. intros Ha. apply Z.pow_le_mono_l. lia. Qed.

Lemma exp_up_stop fuel p n k :
  0 < p → n < p * 10 ^ Z.of_nat fuel →
  n < p * 10 ^ (PyFormat.exp_up fuel p n k - k + 1).
Proof.
  revert p k. induction fuel as [|fuel IH]; intros p k Hp Hn.
  - simpl in *. rewrite Z.sub_diag. simpl. lia.
  - simpl PyFormat.exp_up. destruct (10 * p <=? n) eqn:E.
    + specialize (IH (10 * p) (k + 1)).
      rewrite Nat2Z.inj_succ, Z.pow_succ_r in Hn by lia.
      specialize (IH ltac:(lia) ltac:(lia)).
      destruct (exp_up_spec fuel (10 * p) n (k + 1)) as [Hge _];
        [lia|by apply Z.leb_le|].
      replace (PyFormat.exp_up fuel (10 * p) n (k + 1) - k + 1)
        with (Z.succ (PyFormat.exp_up fuel (10 * p) n (k + 1) - (k + 1) + 1))
        by lia.
      rewrite Z.pow_succ_r by lia. lia.
    + apply Z.leb_gt in E. rewrite Z.sub_diag. simpl. lia.
Qed.

Lemma exp_down_stop fuel q d k :
  0 < q → d <= q * 10 ^ Z.of_nat fuel →
  d <= q * 10 ^ (k - PyFormat.exp_down fuel q d k).
Proof.
  revert q k. induction fuel as [|fuel IH]; intros q k Hq Hd.
  - simpl in *. rewrite Z.sub_diag. simpl. lia.
  - simpl PyFormat.exp_down. destruct (d <=? q) eqn:E.
    + apply Z.leb_le in E. rewrite Z.sub_diag. simpl. lia.
    + specialize (IH (10 * q) (k - 1)).
      rewrite Nat2Z.inj_succ, Z.pow_succ_r in Hd by lia.
      specialize (IH ltac:(lia) ltac:(lia)).
      destruct (exp_down_spec fuel (10 * q) d (k - 1)) as [Hle _].
      replace (k - PyFormat.exp_down fuel (10 * q) d (k - 1))
        with (Z.succ (k - 1 - PyFormat.exp_down fuel (10 * q) d (k - 1)))
        by lia.
      rewrite Z.pow_succ_r by lia. lia.
Qed.

(** [decimal_exponent] is the floor of the decimal logarithm: scaled by
    [10^-k] the value lies in [[1, 10)]. *)
Lemma decimal_exponent_spec m e :
  let k := PyFormat.decimal_exponent m e in
  let nd := PyFormat.scale10 (PyFormat.num_den m e) (- k) in
  snd nd <= fst nd < 10 * snd nd.
Proof.
  pose proof (num_den_pos m e) as [Hn Hd].
  assert (fst (PyFormat.num_den m e) < snd (PyFormat.num_den m e)
            * 10 ^ Z.of_nat (Pos.to_nat (digits2_pos m) + Z.abs_nat e)
          ∧ snd (PyFormat.num_den m e)
            <= 10 ^ Z.of_nat (Pos.to_nat (digits2_pos m) + Z.abs_nat e))
    as [Hfuel1 Hfuel2].
  { destruct (digits2_pos_bound m) as [_ Hm].
    pose proof (pow2_le_pow10 (Z.pos (digits2_pos m)) ltac:(lia)) as H10.
    rewrite Nat2Z.inj_add, positive_nat_Z, Zabs2Nat.id_abs.
    rewrite Z.pow_add_r by lia.
    assert (0 < 10 ^ Z.pos (digits2_pos m)) by (apply Z.pow_pos_nonneg; lia).
    unfold PyFormat.num_den. destruct (0 <=? e) eqn:E; simpl.
    - apply Z.leb_le in E. rewrite Z.abs_eq by lia.
      pose proof (pow2_le_pow10 e E).
      assert (0 < 2 ^ e) by (apply Z.pow_pos_nonneg; lia).
      assert (0 < 2 ^ Z.pos (digits2_pos m)) by (apply Z.pow_pos_nonneg; lia).
      assert (2 ^ Z.pos (digits2_pos m) * 2 ^ e
              <= 10 ^ Z.pos (digits2_pos m) * 10 ^ e)
        by (apply Z.mul_le_mono_nonneg; lia).
      assert (Z.pos m * 2 ^ e < 2 ^ Z.pos (digits2_pos m) * 2 ^ e)
        by (apply Z.mul_lt_mono_pos_r; lia).
      split; lia.
    - apply Z.leb_gt in E. rewrite Z.abs_neq by lia.
      pose proof (pow2_le_pow10 (- e) ltac:(lia)).
      assert (0 < 2 ^ (- e)) by (apply Z.pow_pos_nonneg; lia).
      assert (0 < 10 ^ (- e)) by (apply Z.pow_pos_nonneg; lia).
      set (A := 10 ^ Z.pos (digits2_pos m)) in *.
      set (B := 10 ^ (- e)) in *. set (C := 2 ^ (- e)) in *.
      assert (B <= A * B) by nia.
      assert (A <= A * B) by nia.
      assert (A * B <= C * (A * B)) by nia.
      split; lia. }
  unfold PyFormat.decimal_exponent.
  destruct (PyFormat.num_den m e) as [n d]. simpl in *.
  set (fuel := (Pos.to_nat (digits2_pos m) + Z.abs_nat e)%nat) in *.
  destruct (d <=? n) eqn:E.
  - apply Z.leb_le in E.
    destruct (exp_up_spec fuel d n 0) as [H1 H2]; [lia|done|].
    pose proof (exp_up_stop fuel d n 0 Hd Hfuel1) as H3.
    set (k := PyFormat.exp_up fuel d n 0) in *.
    rewrite Z.sub_0_r in H2, H3.
    unfold PyFormat.scale10. destruct (0 <=? - k) eqn:Ek; simpl.
    + apply Z.leb_le in Ek. assert (k = 0) as Hk0 by lia.
      rewrite Hk0 in *. simpl in *. lia.
    + rewrite Z.opp_involutive.
      rewrite Z.pow_add_r in H3 by lia. change (10 ^ 1) with 10 in H3. lia.
  - apply Z.leb_gt in E.
    destruct (exp_down_spec fuel (10 * n) d (-1)) as [H1 H2].
    assert (d <= 10 * n * 10 ^ Z.of_nat fuel) as Hf.
    { assert (0 < 10 ^ Z.of_nat fuel) by (apply Z.pow_pos_nonneg; lia). nia. }
    pose proof (exp_down_stop fuel (10 * n) d (-1) ltac:(lia) Hf) as H3.
    set (k := PyFormat.exp_down fuel (10 * n) d (-1)) in *.
    unfold PyFormat.scale10. destruct (0 <=? - k) eqn:Ek; simpl;
      [|apply Z.leb_gt in Ek; lia].
    replace (- k) with (Z.succ (-1 - k)) by lia.
    rewrite Z.pow_succ_r by lia. split; [lia|].
    destruct H2 as [H2|H2].
    + rewrite H2. change (-1 - -1) with 0. rewrite Z.pow_0_r. lia.
    + destruct (Z_le_gt_dec 0 (-1 - k - 1)) as [Hge|Hlt].
      * replace (-1 - k) with (Z.succ (-1 - k - 1)) by lia.
        rewrite Z.pow_succ_r by lia. lia.
      * assert (k = -1) as -> by lia.
        change (-1 - -1) with 0. rewrite Z.pow_0_r. lia.
Qed.

Lemma round_half_even_error n d :
  0 <= n → 0 < d →
  2 * Z.abs (PyFormat.round_half_even n d * d - n) <= d
  ∧ n / d <= PyFormat.round_half_even n d <= n / d + 1.
Proof.
  intros Hn Hd. unfold PyFormat.round_half_even. cbv zeta.
  pose proof (Z.div_mod n d ltac:(lia)) as Hdm.
  pose proof (Z.mod_pos_bound n d Hd) as Hmod.
  set (q := n / d) in *. set (rem := n mod d) in *.
  assert ((q + 1) * d = d * q + d) as Hq1 by ring.
  assert (q * d = d * q) as Hq by ring.
  clearbody q rem.
  destruct (2 * rem ?= d) eqn:E.
  - apply Z.compare_eq in E. destruct (Z.even q); rewrite ?Hq1, ?Hq.
    + lia.
    + lia.
  - change (2 * rem < d) in E. rewrite Hq. lia.
  - apply Z.compare_gt_iff in E. rewrite Hq1. lia.
Qed.

(** [round_sig] rounds correctly: the result has exactly [P] digits, and
    scaled to the place of its last digit the value is within half a unit
    of it. *)
Lemma round_sig_spec P m e :
  (0 < P)%nat →
  let r := fst (PyFormat.round_sig P m e) in
  let k := snd (PyFormat.round_sig P m e) in
  let nd := PyFormat.scale10 (PyFormat.num_den m e) (Z.of_nat P - 1 - k) in
  10 ^ (Z.of_nat P - 1) <= r < 10 ^ Z.of_nat P
  ∧ 2 * Z.abs (r * snd nd - fst nd) <= snd nd.
Proof.
  intros HP. pose proof (decimal_exponent_spec m e) as Hk. simpl in Hk.
  pose proof (num_den_pos m e) as [Hn Hd].
  unfold PyFormat.round_sig.
  set (k0 := PyFormat.decimal_exponent m e) in *.
  destruct (PyFormat.num_den m e) as [n d]. simpl in Hn, Hd.
  pose proof (scale10_shift n d (- k0) (Z.of_nat P - 1) ltac:(lia)) as Hsh.
  replace (- k0 + (Z.of_nat P - 1)) with (Z.of_nat P - 1 - k0) in Hsh by lia.
  pose proof (scale10_pos n d (- k0) Hn Hd) as [HNk HDk].
  pose proof (scale10_pos n d (Z.of_nat P - 1 - k0) Hn Hd) as [HN0 HD0].
  assert (0 < 10 ^ (Z.of_nat P - 1)) as Hpow by (apply Z.pow_pos_nonneg; lia).
  assert (10 ^ Z.of_nat P = 10 * 10 ^ (Z.of_nat P - 1)) as HpowP.
  { replace (Z.of_nat P) with (Z.succ (Z.of_nat P - 1)) at 1 by lia.
    by rewrite Z.pow_succ_r by lia. }
  destruct (PyFormat.scale10 (n, d) (- k0)) as [Nk Dk].
  destruct (PyFormat.scale10 (n, d) (Z.of_nat P - 1 - k0)) as [N0 D0] eqn:E0.
  simpl in Hk, Hsh, HNk, HDk, HN0, HD0.
  assert (D0 * 10 ^ (Z.of_nat P - 1) <= N0 < D0 * 10 ^ Z.of_nat P) as HN.
  { rewrite HpowP. set (T := 10 ^ (Z.of_nat P - 1)) in *. nia. }
  pose proof (round_half_even_error N0 D0 ltac:(lia) HD0) as [Herr Hq].
  set (r0 := PyFormat.round_half_even N0 D0) in *.
  assert (10 ^ (Z.of_nat P - 1) <= N0 / D0) as Hlo.
  { apply Z.div_le_lower_bound; lia. }
  assert (N0 / D0 < 10 ^ Z.of_nat P) as Hhi.
  { apply Z.div_lt_upper_bound; lia. }
  destruct (r0 =? 10 ^ Z.of_nat P) eqn:Er; cbn [fst snd].
  - apply Z.eqb_eq in Er. split; [lia|].
    pose proof (scale10_shift n d (Z.of_nat P - 1 - (k0 + 1)) 1 ltac:(lia)) as Hs1.
    replace (Z.of_nat P - 1 - (k0 + 1) + 1) with (Z.of_nat P - 1 - k0) in Hs1
      by lia.
    rewrite E0 in Hs1. change (10 ^ 1) with 10 in Hs1.
    pose proof (scale10_pos n d (Z.of_nat P - 1 - (k0 + 1)) Hn Hd) as [HN1 HD1].
    destruct (PyFormat.scale10 (n, d) (Z.of_nat P - 1 - (k0 + 1))) as [N1 D1].
    cbn [fst snd] in *. rewrite Er, HpowP in Herr.
    set (T := 10 ^ (Z.of_nat P - 1)) in *.
    assert ((10 * T * D0 - N0) * D1 = 10 * D0 * (T * D1 - N1)) as Hrel.
    { rewrite Z.mul_sub_distr_r, Hs1. ring. }
    apply (f_equal Z.abs) in Hrel. rewrite !Z.abs_mul in Hrel.
    rewrite (Z.abs_eq D1), (Z.abs_eq 10), (Z.abs_eq D0) in Hrel by lia.
    pose proof (Z.abs_nonneg (T * D1 - N1)) as Hg.
    set (a := Z.abs (10 * T * D0 - N0)) in *.
    set (g := Z.abs (T * D1 - N1)) in *.
    clearbody a g. nia.
  - rewrite E0. cbn [fst snd]. apply Z.eqb_neq in Er. split; [lia|done].
Qed.

Lemma digit_char_value d :
  0 <= d <= 9 → Z.of_nat (nat_of_ascii (PyFormat.digit_char d)) - 48 = d.
Proof.
  intros Hd. unfold PyFormat.digit_char.
  rewrite nat_ascii_embedding by lia. lia.
Qed.

(** The digits written denote the number they were taken from. *)
Lemma digits_value_fixed n v :
  0 <= v → digits_value (PyFormat.digits_fixed n v) = v mod 10 ^ Z.of_nat n.
Proof.
  revert v. induction n as [|n IH]; intros v Hv.
  - simpl. by rewrite Z.mod_1_r.
  - simpl PyFormat.digits_fixed. unfold digits_value in *.
    rewrite fold_left_app. simpl fold_left.
    rewrite IH by (apply Z.div_pos; lia).
    rewrite digit_char_value by (pose proof (Z.mod_pos_bound v 10); lia).
    rewrite Nat2Z.inj_succ, Z.pow_succ_r by lia.
    rewrite (Z.rem_mul_r v 10 (10 ^ Z.of_nat n)); [lia|lia|].
    apply Z.pow_pos_nonneg; lia.
Qed.

(** The text of [f"{x:.10e}"] for a finite [x]: the sign, the 11 digits of
    the correctly rounded mantissa [r] with a point after the first, and the
    exponent [k]; [r * 10^(k-10)] is within half a unit of its last digit of
    [|x|]. *)
Lemma format_e_finite s m e :
  let r := fst (PyFormat.round_sig 11 m e) in
  let k := snd (PyFormat.round_sig 11 m e) in
  let nd := PyFormat.scale10 (PyFormat.num_den m e) (10 - k) in
  PyFormat.format_e 10 (S754_finite s m e)
  = string_of_list_ascii
      (PyFormat.sign_text s
       ++ PyFormat.with_point (PyFormat.digits_fixed 1 (r / 10 ^ 10))
                              (PyFormat.digits_fixed 10 r)
       ++ PyFormat.exp_text k)
  ∧ 10 ^ 10 <= r < 10 ^ 11
  ∧ 2 * Z.abs (r * snd nd - fst nd) <= snd nd
  ∧ digits_value (PyFormat.digits_fixed 1 (r / 10 ^ 10)
                  ++ PyFormat.digits_fixed 10 r) = r.
Proof.
  intros r k nd.
  pose proof (round_sig_spec 11 m e ltac:(lia)) as [Hr Herr].
  change (Z.of_nat 11 - 1) with 10 in Hr, Herr.
  change (Z.of_nat 11) with 11 in Hr.
  fold r in Hr, Herr. fold k in Herr. fold nd in Herr.
  split; [|split; [done|split; [done|]]].
  - unfold PyFormat.format_e, r, k.
    by destruct (PyFormat.round_sig 11 m e).
  - unfold digits_value. rewrite fold_left_app.
    fold (digits_value (PyFormat.digits_fixed 1 (r / 10 ^ 10))).
    rewrite digits_value_fixed by (apply Z.div_pos; lia).
    change (10 ^ Z.of_nat 1) with 10.
    assert (r / 10 ^ 10 < 10) as Hd0.
    { apply Z.div_lt_upper_bound; [lia|]. change (10 ^ 10 * 10) with (10 ^ 11). lia. }
    assert (0 <= r / 10 ^ 10) by (apply Z.div_pos; lia).
    rewrite Z.mod_small by lia.
    assert (∀ l a, fold_left (λ acc c, 10 * acc + (Z.of_nat (nat_of_ascii c) - 48)) l a
                   = a * 10 ^ Z.of_nat (length l) + digits_value l) as Hfold.
    { unfold digits_value. induction l as [|c l IH]; intros a; simpl fold_left.
      - simpl. lia.
      - rewrite IH, (IH (10 * 0 + _)).
        change (length (c :: l)) with (S (length l)).
        rewrite Nat2Z.inj_succ, Z.pow_succ_r by lia. ring. }
    rewrite Hfold, length_digits_fixed, digits_value_fixed by lia.
    change (Z.of_nat 10) with 10.
    pose proof (Z.div_mod r (10 ^ 10) ltac:(lia)). lia.
Qed.

(** ** The output file *)

Lemma string_app_assoc (s1 s2 s3 : string) :
  (s1 +:+ s2) +:+ s3 = s1 +:+ (s2 +:+ s3).
Proof.
  induction s1 as [|c s1 IH]; [done|].
  change (String c ((s1 +:+ s2) +:+ s3) = String c (s1 +:+ s2 +:+ s3)).
  by rewrite IH.
Qed.

Lemma string_app_nil_r (s : string) : s +:+ "" = s.
Proof.
  induction s as [|c s IH]; [done|].
  change (String c (s +:+ "") = String c s). by rewrite IH.
Qed.

Lemma write_rows_file rows w text :
  masses_file w = Some text →
  write_rows rows w
  = mkWorld (data_dir w)
      (Some (text +:+ String.concat "" (payload_line <$> rows))) (stdout w).
Proof.
  revert w text. induction rows as [|r rows IH]; intros w text Hw.
  - destruct w as [dd f out]. simpl in *. subst f.
    by rewrite string_app_nil_r.
  - change (write_rows (r :: rows) w)
      with (write_rows rows (write (payload_line r) w)).
    rewrite (IH _ (text +:+ payload_line r)).
    + unfold write. rewrite Hw. simpl. f_equal. f_equal.
      rewrite string_app_assoc. f_equal.
      destruct rows; simpl; [by rewrite string_app_nil_r|done].
    + unfold write. by rewrite Hw.
Qed.

(** The file the script leaves: the header, the version line when the
    revision is known, then the payload lines of the rows in order. *)
Lemma script_file env w cat rows :
  particle_pkg env = Some cat → build_rows cat = Ok rows →
  masses_file (snd (script env w))
  = Some (header_line
          +:+ match git_revision_hash env with
              | Some git_hash => version_line git_hash
              | None => ""
              end
          +:+ String.concat "" (payload_line <$> rows)).
Proof.
  intros Hp Hb. unfold script. rewrite Hp.
  unfold build_rows, absid_to_pdgid in Hb.
  destruct (grouping cat) as [d out]. simpl in Hb. rewrite Hb. simpl.
  set (w1 := write_version env _).
  assert (masses_file w1
    = Some (header_line +:+ match git_revision_hash env with
                            | Some git_hash => version_line git_hash
                            | None => ""
                            end)) as Hw1.
  { unfold w1, write_version.
    destruct (git_revision_hash env) as [h|]; simpl.
    - reflexivity.
    - by rewrite string_app_nil_r. }
  rewrite (write_rows_file rows w1 _ Hw1). simpl.
  by rewrite string_app_assoc.
Qed.


(** * The claims *)

(** ** Massless by convention *)

(** C1: for a group whose absolute identifier is 12, 14, 16 or 22 the
    resolved mass is exactly [0.0] whatever the catalog holds; every row of
    such a group has mass [0.0] in MeV and in kilograms and its mass field is
    the literal ["0.0"] (padded to the field width); in particular a catalog
    record for identifier 22, whatever its mass, gives a row for 22 with
    mass [0.0]. *)
Theorem massless_rows_are_zero cat rows :
  build_rows cat = Ok rows →
  (∀ aid id, absid_to_pdgid cat !! aid = Some id → aid ∈ massless_ids →
     forced_mass_mev cat id = Ok F64.zero)
  ∧ (∀ r, r ∈ rows → Z.abs (row_pdgid r) ∈ massless_ids →
       row_m_mev r = F64.zero ∧ row_m_kg r = F64.zero
       ∧ m_kg_str (row_m_kg r) = "0.0"
       ∧ PyFormat.ljust 18 (m_kg_str (row_m_kg r)) = "0.0               ")
  ∧ (∀ p, p ∈ cat → pdgid p = 22 →
       ∃ r, r ∈ rows ∧ row_pdgid r = 22 ∧ row_m_kg r = F64.zero
            ∧ m_kg_str (row_m_kg r) = "0.0").
Proof.
  intros Hb. split; [|split].
  - intros aid id Hid Ha. apply forced_mass_mev_massless.
    by destruct (absid_to_pdgid_ok cat _ _ Hid) as (-> & _).
  - intros r Hr Ha. destruct (row_mass _ _ _ Hb Hr) as (Hm & Hkg & _).
    rewrite forced_mass_mev_massless in Hm by done. injection Hm as Hm.
    rewrite Hkg, <- Hm. done.
  - intros p Hin Hp.
    assert (kept p = true) as Hk.
    { apply kept_spec. rewrite Hp. split; [|simpl; lia].
      rewrite quark_ids_spec. simpl. lia. }
    pose proof (group_of_positive_record cat p Hin Hk) as Hid.
    rewrite Hp in Hid. specialize (Hid ltac:(lia)).
    destruct (group_row cat rows 22 22 F64.zero Hb Hid) as (r & Hr & Hi & _ & Hkg).
    { apply forced_mass_mev_massless. rewrite massless_ids_spec. simpl. lia. }
    exists r. rewrite Hkg. done.
Qed.

Lemma massless_rows_are_zero_witness :
  from_pdgid sample_catalog 22
    = Ok (mkParticle 22 (Some mass_electron) (Some "gamma"))
  ∧ ∃ r, r ∈ sample_rows ∧ row_pdgid r = 22 ∧ row_m_kg r = F64.zero
         ∧ m_kg_str (row_m_kg r) = "0.0".
Proof.
  split; [reflexivity|].
  apply (massless_rows_are_zero sample_catalog sample_rows)
    with (p := mkParticle 22 (Some mass_electron) (Some "gamma")).
  - vm_compute. reflexivity.
  - unfold sample_catalog.
    repeat first [apply list_elem_of_here | apply list_elem_of_further].
  - reflexivity.
Defined.

(** ** Conversion to kilograms *)

(** C2: a row outside the massless convention carries the catalog mass of
    its identifier (a number, not NaN) and its mass in kilograms is the
    binary64 product of that mass and [MEV_TO_KG].  In exact arithmetic: when
    the catalog mass is a finite binary64 number and the product a normal
    one, the mass in kilograms differs from [mass * 178266192 / 10^38] by at
    most [2^-51] of it (both sides counted in units of [2^-1074] and
    multiplied by [10^38]).  A finite non-zero mass in kilograms is written as
    its sign, 11 decimal digits with a point after the first, and a decimal
    exponent; the digits denote the mantissa [d] with [10^10 <= d < 10^11],
    and [d * 10^(k-10)] is within half a unit of the tenth fractional digit
    of the mass in kilograms. *)
Theorem mass_kg_is_catalog_mass_times_constant cat rows r :
  build_rows cat = Ok rows → r ∈ rows → Z.abs (row_pdgid r) ∉ massless_ids →
  ∃ p m, from_pdgid cat (row_pdgid r) = Ok p ∧ mass p = Some m
         ∧ F64.isnan m = false ∧ row_m_mev r = m
         ∧ row_m_kg r = F64.mul m MEV_TO_KG
         ∧ (∀ sm mm em s mk ek,
              m = S754_finite sm mm em → -1074 <= em →
              row_m_kg r = S754_finite s mk ek → 2 ^ 52 <= Z.pos mk →
              s = sm
              ∧ 2 ^ 51 * Z.abs (F64.units (row_m_kg r) * 10 ^ 38
                                - F64.units m * 178266192)
                <= F64.units m * 178266192)
         ∧ (∀ s mk ek,
              row_m_kg r = S754_finite s mk ek →
              let d := fst (PyFormat.round_sig 11 mk ek) in
              let k := snd (PyFormat.round_sig 11 mk ek) in
              let nd := PyFormat.scale10 (PyFormat.num_den mk ek) (10 - k) in
              m_kg_str (row_m_kg r)
              = string_of_list_ascii
                  (PyFormat.sign_text s
                   ++ PyFormat.with_point
                        (PyFormat.digits_fixed 1 (d / 10 ^ 10))
                        (PyFormat.digits_fixed 10 d)
                   ++ PyFormat.exp_text k)
              ∧ 10 ^ 10 <= d < 10 ^ 11
              ∧ 2 * Z.abs (d * snd nd - fst nd) <= snd nd
              ∧ digits_value (PyFormat.digits_fixed 1 (d / 10 ^ 10)
                              ++ PyFormat.digits_fixed 10 d) = d).
Proof.
  intros Hb Hr Ha. destruct (row_mass _ _ _ Hb Hr) as (Hm & Hkg & p & Hp & _).
  rewrite (forced_mass_mev_lookup _ _ _ Ha Hp) in Hm.
  exists p. destruct (mass p) as [m|]; [|done].
  destruct (F64.isnan m) eqn:Hnan; [done|]. injection Hm as Hm.
  exists m. subst m. repeat (split; [done|]). split.
  - intros sm mm em s mk ek Hmev Hem Hk Hnormal. rewrite Hk.
    rewrite Hkg, Hmev in Hk. rewrite Hmev.
    by apply mul_MEV_TO_KG_error.
  - intros s mk ek Hk. rewrite Hk.
    replace (m_kg_str (S754_finite s mk ek))
      with (PyFormat.format_e 10 (S754_finite s mk ek)) by (by destruct s).
    apply format_e_finite.
Qed.

Lemma mass_kg_is_catalog_mass_times_constant_witness :
  ∃ p m, from_pdgid sample_catalog (row_pdgid row_electron) = Ok p
         ∧ mass p = Some m
         ∧ F64.isnan m = false ∧ row_m_mev row_electron = m
         ∧ row_m_kg row_electron = F64.mul m MEV_TO_KG
         ∧ (∀ sm mm em s mk ek,
              m = S754_finite sm mm em → -1074 <= em →
              row_m_kg row_electron = S754_finite s mk ek →
              2 ^ 52 <= Z.pos mk →
              s = sm
              ∧ 2 ^ 51 * Z.abs (F64.units (row_m_kg row_electron) * 10 ^ 38
                                - F64.units m * 178266192)
                <= F64.units m * 178266192)
         ∧ (∀ s mk ek,
              row_m_kg row_electron = S754_finite s mk ek →
              let d := fst (PyFormat.round_sig 11 mk ek) in
              let k := snd (PyFormat.round_sig 11 mk ek) in
              let nd := PyFormat.scale10 (PyFormat.num_den mk ek) (10 - k) in
              m_kg_str (row_m_kg row_electron)
              = string_of_list_ascii
                  (PyFormat.sign_text s
                   ++ PyFormat.with_point
                        (PyFormat.digits_fixed 1 (d / 10 ^ 10))
                        (PyFormat.digits_fixed 10 d)
                   ++ PyFormat.exp_text k)
              ∧ 10 ^ 10 <= d < 10 ^ 11
              ∧ 2 * Z.abs (d * snd nd - fst nd) <= snd nd
              ∧ digits_value (PyFormat.digits_fixed 1 (d / 10 ^ 10)
                              ++ PyFormat.digits_fixed 10 d) = d).
Proof.
  apply (mass_kg_is_catalog_mass_times_constant sample_catalog sample_rows
           row_electron).
  - vm_compute. reflexivity.
  - apply list_elem_of_here.
  - rewrite massless_ids_spec. simpl. lia.
Defined.

(** The electron of the sample catalog: [0.51099895] MeV gives
    [9.1093836932e-31] kg, a normal number within [2^-51] of the exact
    product. *)
Example electron_mass_kg :
  F64.mul mass_electron MEV_TO_KG = S754_finite false 5200538743265651 (-152)
  ∧ 2 ^ 52 <= 5200538743265651
  ∧ 2 ^ 51 * Z.abs (F64.units (S754_finite false 5200538743265651 (-152)) * 10 ^ 38
                    - F64.units mass_electron * 178266192)
    <= F64.units mass_electron * 178266192.
Proof. split; [reflexivity|]. split; vm_compute; discriminate. Qed.

(** The digits written for the electron: [91093836932] at exponent [-31]. *)
Example electron_digits :
  PyFormat.round_sig 11 5200538743265651 (-152) = (91093836932, -31)
  ∧ m_kg_str (row_m_kg row_electron) = "9.1093836932e-31".
Proof. split; vm_compute; reflexivity. Qed.

(** The electron's line of the sample table. *)
Example electron_line :
  payload_line row_electron
  = "    11 9.1093836932e-31      # e- (0.510999 MeV/c^2)" +:+ PyFormat.nl.
Proof. vm_compute. reflexivity. Qed.

(** ** Quarks and nuclei never reach the table *)

(** C3: no row of the table has an absolute identifier in the quark set
    [{1,...,6}] or at or above 1,000,000,000; and the records of those two
    categories contribute nothing: the table built from the catalog with them
    removed is the same table. *)
Theorem rows_exclude_quarks_and_nuclei cat rows r :
  build_rows cat = Ok rows → r ∈ rows →
  ((Z.abs (row_pdgid r) ∉ quark_ids) ∧ Z.abs (row_pdgid r) < 1000000000)
  ∧ build_rows (List.filter kept cat) = Ok rows.
Proof.
  intros Hb Hr. split.
  - destruct (row_entry _ _ _ Hb Hr) as [Hd _].
    by destruct (absid_to_pdgid_ok cat _ _ Hd) as (_ & Hk & _).
  - by rewrite build_rows_filter_kept.
Qed.

Lemma rows_exclude_quarks_and_nuclei_witness :
  ((Z.abs (row_pdgid row_f0) ∉ quark_ids) ∧ Z.abs (row_pdgid row_f0) < 1000000000)
  ∧ build_rows (List.filter kept sample_catalog) = Ok sample_rows.
Proof.
  apply (rows_exclude_quarks_and_nuclei sample_catalog sample_rows row_f0).
  - vm_compute. reflexivity.
  - unfold sample_rows. repeat first [apply list_elem_of_here | apply list_elem_of_further].
Defined.

(** ** One row per group, in ascending order *)

(** C4: the absolute identifiers of the rows are strictly ascending in the
    order of the rows, hence pairwise distinct (a group has at most one row),
    and the file holds the rows' lines in that same order after its header
    lines. *)
Theorem rows_sorted_by_absid cat rows :
  build_rows cat = Ok rows →
  StronglySorted Z.lt ((λ r, Z.abs (row_pdgid r)) <$> rows)
  ∧ NoDup ((λ r, Z.abs (row_pdgid r)) <$> rows)
  ∧ (∀ i j ri rj, rows !! i = Some ri → rows !! j = Some rj →
       Z.abs (row_pdgid ri) = Z.abs (row_pdgid rj) → i = j)
  ∧ ∀ env w, particle_pkg env = Some cat →
      masses_file (snd (script env w))
      = Some (header_line
              +:+ match git_revision_hash env with
                  | Some git_hash => version_line git_hash
                  | None => ""
                  end
              +:+ String.concat "" (payload_line <$> rows)).
Proof.
  intros Hb. split; [|split; [|split]]; [| | |intros env w Hp; exact (script_file env w cat rows Hp Hb)].
  all: revert Hb; rewrite build_rows_omap; intros [= <-].
  all: cut (StronglySorted Z.lt
    ((λ r, Z.abs (row_pdgid r)) <$>
       omap (row_of_key cat (absid_to_pdgid cat))
            (sorted_keys (absid_to_pdgid cat)))).
  all: try (apply omap_sorted; [|apply sorted_keys_lt];
            intros k a; apply row_abs_key).
  - done.
  - apply StronglySorted_lt_NoDup.
  - intros Hs%StronglySorted_lt_NoDup i j ri rj Hi Hj Heq.
    eapply NoDup_lookup; [exact Hs| |].
    + rewrite list_lookup_fmap, Hi. reflexivity.
    + rewrite list_lookup_fmap, Hj. simpl. by rewrite Heq.
Qed.

Lemma rows_sorted_by_absid_witness :
  StronglySorted Z.lt ((λ r, Z.abs (row_pdgid r)) <$> sample_rows)
  ∧ NoDup ((λ r, Z.abs (row_pdgid r)) <$> sample_rows)
  ∧ (∀ i j ri rj, sample_rows !! i = Some ri → sample_rows !! j = Some rj →
       Z.abs (row_pdgid ri) = Z.abs (row_pdgid rj) → i = j)
  ∧ ∀ env w, particle_pkg env = Some sample_catalog →
      masses_file (snd (script env w))
      = Some (header_line
              +:+ match git_revision_hash env with
                  | Some git_hash => version_line git_hash
                  | None => ""
                  end
              +:+ String.concat "" (payload_line <$> sample_rows)).
Proof.
  apply (rows_sorted_by_absid sample_catalog sample_rows).
  vm_compute. reflexivity.
Defined.

(** The identifiers of the sample table in file order. *)
Example sample_rows_order :
  row_pdgid <$> sample_rows = [11; 12; 21; 22; -2212; 9000221].
Proof. reflexivity. Qed.

(** ** The representative of a group *)

(** C5: when a surviving record [p] is the first of its group in catalog
    order, the group has no entry before [p] is visited; visiting [p] stores
    the positive identifier if the catalog has a record for it and the signed
    identifier of [p] otherwise; and whatever is visited afterwards, the entry
    stays what it was. *)
Theorem representative_set_by_first_record cat pre p post :
  cat = pre ++ p :: post → kept p = true →
  (∀ q, q ∈ pre → kept q = true → Z.abs (pdgid q) ≠ Z.abs (pdgid p)) →
  let aid := Z.abs (pdgid p) in
  let rep := match from_pdgid cat aid with Ok _ => aid | Raise _ => pdgid p end in
  fst (fold_left (group_step cat) pre (∅, [])) !! aid = None
  ∧ fst (fold_left (group_step cat) (pre ++ [p]) (∅, [])) !! aid = Some rep
  ∧ (∀ later,
       fst (fold_left (group_step cat) (pre ++ p :: later) (∅, [])) !! aid
       = Some rep)
  ∧ absid_to_pdgid cat !! aid = Some rep.
Proof.
  intros Hcat Hk Hpre aid rep.
  assert (fold_left (dict_step cat) pre ∅ !! aid = None) as Hnone.
  { rewrite dict_fold_other by done. apply lookup_empty. }
  assert (∀ later,
    fold_left (dict_step cat) (pre ++ p :: later) ∅ !! aid = Some rep) as Hall.
  { intros later. rewrite fold_left_app. simpl.
    apply dict_fold_keep. by apply dict_step_first. }
  rewrite !grouping_fst. simpl. split; [done|]. split; [apply Hall|].
  split; [by intros later; rewrite grouping_fst|].
  rewrite absid_to_pdgid_fold. rewrite Hcat at 2. apply Hall.
Qed.

Lemma representative_set_by_first_record_witness :
  absid_to_pdgid sample_catalog !! 2212 = Some (-2212).
Proof.
  pose proof (representative_set_by_first_record sample_catalog
    (firstn 8 sample_catalog)
    (mkParticle (-2212) (Some mass_proton) (Some ""))
    (skipn 9 sample_catalog)) as H.
  apply H.
  - reflexivity.
  - vm_compute. reflexivity.
  - intros q Hq _. simpl in Hq.
    repeat (apply elem_of_cons in Hq as [->|Hq]; [simpl; lia|]).
    by apply elem_of_nil in Hq.
Defined.

(** The positron comes first in the sample catalog, yet the group's
    representative is the electron: the positive identifier resolves. *)
Example representative_prefers_positive :
  absid_to_pdgid sample_catalog !! 11 = Some 11
  ∧ from_pdgid sample_catalog 11
    = Ok (mkParticle 11 (Some mass_electron) (Some "e-")).
Proof. split; vm_compute; reflexivity. Qed.

(** ** Groups without a numeric mass *)

(** C6: for a group outside the massless convention whose catalog mass is
    absent or NaN, mass resolution raises [ValueError], which the rows loop
    absorbs: the loop still returns a table, the table has no row for that
    group, it is exactly the table built from the other keys, and the script
    runs to its end. *)
Theorem unresolved_mass_drops_group cat aid id p :
  absid_to_pdgid cat !! aid = Some id → aid ∉ massless_ids →
  from_pdgid cat id = Ok p → mass p = None ∨ mass p = Some S754_nan →
  forced_mass_mev cat id = Raise (ValueError "no mass")
  ∧ ∃ rows, build_rows cat = Ok rows
     ∧ (∀ r, r ∈ rows → Z.abs (row_pdgid r) ≠ aid)
     ∧ rows_loop cat (absid_to_pdgid cat)
         (List.filter (λ k, negb (k =? aid)) (sorted_keys (absid_to_pdgid cat))) []
       = Ok rows
     ∧ ∀ env w, particle_pkg env = Some cat → fst (script env w) = Finished.
Proof.
  intros Hid Ha Hp Hmass.
  assert (forced_mass_mev cat id = Raise (ValueError "no mass")) as Hm.
  { rewrite (forced_mass_mev_lookup cat id p); [|  |done].
    - by destruct Hmass as [-> | ->].
    - by destruct (absid_to_pdgid_ok cat _ _ Hid) as (-> & _). }
  split; [done|].
  destruct (build_rows_total cat) as [rows Hb]. exists rows.
  split; [done|]. split; [by eapply group_no_row|]. split.
  - rewrite rows_loop_omap.
    + rewrite omap_filter_none; [simpl; by rewrite <- build_rows_omap|].
      unfold row_of_key, row_of. rewrite Hid. simpl. by rewrite Hm.
    + apply absid_to_pdgid_ok.
    + intros k Hk. apply list_elem_of_In, filter_In in Hk as [Hk _].
      by apply elem_of_sorted_keys, list_elem_of_In.
  - intros env w. apply script_finishes.
Qed.

Lemma unresolved_mass_drops_group_witness :
  forced_mass_mev sample_catalog 39 = Raise (ValueError "no mass")
  ∧ ∃ rows, build_rows sample_catalog = Ok rows
     ∧ (∀ r, r ∈ rows → Z.abs (row_pdgid r) ≠ 39)
     ∧ rows_loop sample_catalog (absid_to_pdgid sample_catalog)
         (List.filter (λ k, negb (k =? 39))
            (sorted_keys (absid_to_pdgid sample_catalog))) []
       = Ok rows
     ∧ ∀ env w, particle_pkg env = Some sample_catalog →
         fst (script env w) = Finished.
Proof.
  apply (unresolved_mass_drops_group sample_catalog 39 39
           (mkParticle 39 None (Some "G"))).
  - vm_compute. reflexivity.
  - rewrite massless_ids_spec. lia.
  - reflexivity.
  - left. reflexivity.
Defined.

(** The NaN case of the sample catalog: the group of [-4122] is dropped. *)
Example nan_mass_dropped :
  absid_to_pdgid sample_catalog !! 4122 = Some (-4122)
  ∧ forced_mass_mev sample_catalog (-4122) = Raise (ValueError "no mass")
  ∧ Forall (λ r, row_pdgid r ≠ -4122) sample_rows.
Proof.
  split; [vm_compute; reflexivity|]. split; [reflexivity|].
  unfold sample_rows. repeat constructor; simpl; lia.
Qed.

(** ** The missing dependency *)

(** C7: when the [particle] package cannot be imported the script ends at
    once with [SystemExit] carrying the installation message, and the world
    is as it was: no directory created, no file opened or written, nothing
    printed. *)
Theorem missing_dependency_exits_before_output env w :
  particle_pkg env = None →
  script env w = (SystemExit import_message, w)
  ∧ data_dir (snd (script env w)) = data_dir w
  ∧ masses_file (snd (script env w)) = masses_file w
  ∧ stdout (snd (script env w)) = stdout w.
Proof.
  intros H. unfold script. rewrite H. done.
Qed.

Lemma missing_dependency_exits_before_output_witness :
  script (mkEnv None (Some "0123abc")) (mkWorld false None [])
  = (SystemExit import_message, mkWorld false None []).
Proof.
  apply (missing_dependency_exits_before_output
           (mkEnv None (Some "0123abc")) (mkWorld false None [])).
  reflexivity.
Defined.

(** With the package present the same world gets its directory and file. *)
Example present_dependency_writes :
  let '(o, w) := script (mkEnv (Some sample_catalog) None) (mkWorld false None []) in
  o = Finished ∧ data_dir w = true ∧ is_Some (masses_file w).
Proof. vm_compute. eauto. Qed.

(** ** The shape of the payload lines *)




(** The five-character identifier of the antiproton row is padded to 6; the
    seven-character one of [9000221] is not cut. *)
Example antiproton_line :
  payload_line row_antiproton
  = " -2212 1.6726219222e-27      # PDG<PDGID: -2212> (938.272 MeV/c^2)"
    +:+ PyFormat.nl.
Proof. vm_compute. reflexivity. Qed.

(** The two synthesized names: a nameless neutrino alone in its group is
    stored as the plain integer, a nameless antineutrino alone in its group
    as the record's [PDGID] object. *)
Example synthesized_names :
  build_rows [mkParticle 12 None None]
  = Ok [mkRow 12 F64.zero "PDG12" F64.zero]
  ∧ build_rows [mkParticle (-12) None None]
    = Ok [mkRow (-12) F64.zero "PDG<PDGID: -12>" F64.zero].
Proof. split; vm_compute; reflexivity. Qed.

(** ** The convention precedes the lookup *)

(** C9: for a group whose absolute identifier is 12, 14, 16 or 22, mass
    resolution answers [0.0] on any catalog whatsoever (the catalog is not
    consulted, so an absent or NaN mass, or even an absent record, cannot make
    it fail), and the group has its row in the table. *)
Theorem massless_group_never_dropped cat aid id :
  absid_to_pdgid cat !! aid = Some id → aid ∈ massless_ids →
  (∀ any_cat, forced_mass_mev any_cat id = Ok F64.zero)
  ∧ ∃ rows r, build_rows cat = Ok rows ∧ r ∈ rows ∧ row_pdgid r = id
              ∧ row_m_mev r = F64.zero ∧ row_m_kg r = F64.zero.
Proof.
  intros Hid Ha.
  assert (Z.abs id ∈ massless_ids) as Ha'.
  { by destruct (absid_to_pdgid_ok cat _ _ Hid) as (-> & _). }
  split.
  - intros any_cat. by apply forced_mass_mev_massless.
  - destruct (build_rows_total cat) as [rows Hb]. exists rows.
    destruct (group_row cat rows aid id F64.zero Hb Hid) as (r & Hr & Hi & Hm & Hkg).
    { by apply forced_mass_mev_massless. }
    exists r. rewrite Hkg. done.
Qed.

Lemma massless_group_never_dropped_witness :
  from_pdgid sample_catalog 12 = Ok (mkParticle 12 None (Some "nu(e)"))
  ∧ (∀ any_cat, forced_mass_mev any_cat 12 = Ok F64.zero)
  ∧ ∃ rows r, build_rows sample_catalog = Ok rows ∧ r ∈ rows ∧ row_pdgid r = 12
              ∧ row_m_mev r = F64.zero ∧ row_m_kg r = F64.zero.
Proof.
  split; [reflexivity|].
  apply (massless_group_never_dropped sample_catalog 12 12).
  - vm_compute. reflexivity.
  - rewrite massless_ids_spec. lia.
Defined.

(** ** The literal zero *)

(** C10: for every row, the mass field is the literal ["0.0"] exactly when
    the mass in kilograms compares equal to [0.0], and is the scientific
    notation of that mass otherwise; membership in the massless convention
    plays no part: a group outside it whose catalog mass is a zero has its row
    written with ["0.0"] too. *)
Theorem literal_zero_follows_m_kg cat rows :
  build_rows cat = Ok rows →
  (∀ r, r ∈ rows →
     (m_kg_str (row_m_kg r) = "0.0" ↔ F64.eqb (row_m_kg r) F64.zero = true)
     ∧ (F64.eqb (row_m_kg r) F64.zero = false →
        m_kg_str (row_m_kg r) = PyFormat.format_e 10 (row_m_kg r)))
  ∧ (∀ aid id p s,
       absid_to_pdgid cat !! aid = Some id → aid ∉ massless_ids →
       from_pdgid cat id = Ok p → mass p = Some (S754_zero s) →
       ∃ r, r ∈ rows ∧ row_pdgid r = id ∧ m_kg_str (row_m_kg r) = "0.0").
Proof.
  intros Hb. split.
  - intros r _. split; [apply m_kg_str_literal_iff|].
    intros Hne. unfold m_kg_str, F64.neqb. by rewrite Hne.
  - intros aid id p s Hid Ha Hp Hmass.
    destruct (group_row cat rows aid id (S754_zero s) Hb Hid)
      as (r & Hr & Hi & _ & Hkg).
    { rewrite (forced_mass_mev_lookup cat id p); [by rewrite Hmass| |done].
      by destruct (absid_to_pdgid_ok cat _ _ Hid) as (-> & _). }
    exists r. by rewrite Hkg, mul_zero_l.
Qed.

Lemma literal_zero_follows_m_kg_witness :
  (21 ∉ massless_ids)
  ∧ ∃ r, r ∈ sample_rows ∧ row_pdgid r = 21 ∧ m_kg_str (row_m_kg r) = "0.0".
Proof.
  split; [rewrite massless_ids_spec; lia|].
  apply (proj2 (literal_zero_follows_m_kg sample_catalog sample_rows
                  ltac:(vm_compute; reflexivity))
           21 21 (mkParticle 21 (Some (S754_zero false)) (Some "g")) false).
  - vm_compute. reflexivity.
  - rewrite massless_ids_spec. lia.
  - reflexivity.
  - reflexivity.
Defined.

(** A catalog mass of [1e-300] MeV is not zero, but its product with
    [MEV_TO_KG] underflows to [0.0], and the field reads ["0.0"]: the choice
    follows the computed mass in kilograms, nothing else. *)
Example underflow_writes_literal_zero :
  F64.mul (S754_finite false 6032057205060441 (-1049)) MEV_TO_KG = F64.zero
  ∧ m_kg_str (F64.mul (S754_finite false 6032057205060441 (-1049)) MEV_TO_KG)
    = "0.0".
Proof. split; vm_compute; reflexivity. Qed.

(** * Further properties of the script *)

(** ** What the grouping loop prints *)

Lemma group_step_snd cat d out p :
  snd (group_step cat (d, out) p)
  = out ++ (if is_quark p then [] else [PyFormat.str_PDGID (pdgid p)]).
Proof.
  unfold group_step. destruct (is_quark p); simpl; [by rewrite app_nil_r|].
  destruct (is_nucleus_or_ion p); [done|].
  destruct (d !! Z.abs (pdgid p)); [done|].
  by destruct (from_pdgid cat (Z.abs (pdgid p))).
Qed.

Lemma grouping_snd cat l st :
  snd (fold_left (group_step cat) l st)
  = snd st ++ (PyFormat.str_PDGID <$>
                 (pdgid <$> List.filter (λ p, negb (is_quark p)) l)).
Proof.
  revert st. induction l as [|p l IH]; intros [d out]; cbn [fold_left].
  - simpl. by rewrite app_nil_r.
  - rewrite IH, (surjective_pairing (group_step cat (d, out) p)).
    cbn [snd]. rewrite group_step_snd. cbn [List.filter].
    destruct (is_quark p); simpl; [by rewrite app_nil_r|].
    by rewrite <- app_assoc.
Qed.

(** The world the script leaves when the package is present. *)
Lemma script_world env w cat rows :
  particle_pkg env = Some cat → build_rows cat = Ok rows →
  script env w
  = (Finished,
     mkWorld true
       (Some (header_line
              +:+ match git_revision_hash env with
                  | Some git_hash => version_line git_hash
                  | None => ""
                  end
              +:+ String.concat "" (payload_line <$> rows)))
       (stdout w ++ snd (grouping cat))).
Proof.
  intros Hp Hb. unfold script. rewrite Hp.
  unfold build_rows, absid_to_pdgid in Hb.
  destruct (grouping cat) as [d out]. simpl in Hb. rewrite Hb. simpl.
  f_equal.
  set (w1 := write_version env _).
  assert (w1 = mkWorld true
    (Some (header_line +:+ match git_revision_hash env with
                           | Some git_hash => version_line git_hash
                           | None => ""
                           end)) (stdout w ++ out)) as Hw1.
  { unfold w1, write_version, write, open_w, ensure_folder, print_all.
    destruct (git_revision_hash env) as [h|], (data_dir w); simpl;
      by rewrite ?string_app_nil_r. }
  rewrite (write_rows_file rows w1 _ ltac:(by rewrite Hw1)).
  rewrite Hw1. simpl. by rewrite string_app_assoc.
Qed.

(** X1: the grouping loop prints one line for every record that is not a
    quark, nuclei and ions and repeated groups included, in catalog order, and
    prints nothing else; the line is [str] of the record's [PDGID] object,
    ["<PDGID: n>"], not the bare number; the script appends exactly these
    lines to standard output. *)
Theorem printed_identifiers cat git_hash w :
  snd (grouping cat)
  = PyFormat.str_PDGID <$> (pdgid <$> List.filter (λ p, negb (is_quark p)) cat)
  ∧ stdout (snd (script (mkEnv (Some cat) git_hash) w))
    = stdout w ++ (PyFormat.str_PDGID <$>
                     (pdgid <$> List.filter (λ p, negb (is_quark p)) cat)).
Proof.
  assert (snd (grouping cat)
    = PyFormat.str_PDGID <$> (pdgid <$> List.filter (λ p, negb (is_quark p)) cat))
    as Hout.
  { unfold grouping. by rewrite grouping_snd. }
  split; [done|].
  destruct (build_rows_total cat) as [rows Hb].
  rewrite (script_world (mkEnv (Some cat) git_hash) w cat rows eq_refl Hb).
  simpl. by rewrite Hout.
Qed.

(** The lines printed for the sample catalog. *)
Example sample_printed :
  snd (grouping sample_catalog)
  = ["<PDGID: -11>"; "<PDGID: 11>"; "<PDGID: 12>"; "<PDGID: 21>"; "<PDGID: 22>";
     "<PDGID: 39>"; "<PDGID: -4122>"; "<PDGID: -2212>"; "<PDGID: 9000221>";
     "<PDGID: 1000010010>"].
Proof. vm_compute. reflexivity. Qed.

(** ** The dictionary, entry by entry *)

Lemma from_pdgid_is_Ok cat v :
  (∃ q, from_pdgid cat v = Ok q) ↔ ∃ p, p ∈ cat ∧ pdgid p = v.
Proof.
  split.
  - intros [q Hq]. exists q. by destruct (from_pdgid_Ok _ _ _ Hq).
  - intros (p & Hin & <-). by apply from_pdgid_elem_of.
Qed.

Lemma representative_sign cat p :
  p ∈ cat →
  representative cat p
  = match from_pdgid cat (Z.abs (pdgid p)) with
    | Ok _ => Z.abs (pdgid p)
    | Raise _ => - Z.abs (pdgid p)
    end.
Proof.
  intros Hin. unfold representative.
  destruct (from_pdgid cat (Z.abs (pdgid p))) as [q|e] eqn:E; [done|].
  destruct (from_pdgid_Raise _ _ _ E) as [_ Hall].
  specialize (Hall p Hin). lia.
Qed.

Lemma absid_to_pdgid_lookup_iff cat aid id :
  absid_to_pdgid cat !! aid = Some id
  ↔ (∃ p, p ∈ cat ∧ kept p = true ∧ Z.abs (pdgid p) = aid)
    ∧ id = match from_pdgid cat aid with Ok _ => aid | Raise _ => - aid end.
Proof.
  split.
  - intros Hid.
    destruct (absid_to_pdgid_ok cat _ _ Hid) as (_ & _ & (p & Hin & Hk & Ha & ->) & _).
    split; [eauto|]. rewrite representative_sign by done. by rewrite Ha.
  - intros [(p & Hin & Hk & Ha) ->].
    destruct (absid_to_pdgid_dom cat p Hin Hk) as [id Hid].
    rewrite Ha in Hid. rewrite Hid. f_equal.
    destruct (absid_to_pdgid_ok cat _ _ Hid) as (_ & _ & (q & Hq & _ & Hqa & ->) & _).
    rewrite representative_sign by done. by rewrite Hqa.
Qed.

(** X2: the dictionary has an entry for [aid] exactly when some catalog
    record with that absolute identifier is neither a quark nor a nucleus or
    ion, and the entry is the positive identifier when the catalog has a
    record for it and the negative one otherwise. *)
Theorem absid_to_pdgid_entries cat aid id :
  absid_to_pdgid cat !! aid = Some id
  ↔ (∃ p, p ∈ cat ∧ is_quark p = false ∧ is_nucleus_or_ion p = false
          ∧ Z.abs (pdgid p) = aid)
    ∧ (((∃ p, p ∈ cat ∧ pdgid p = aid) ∧ id = aid)
       ∨ ((∀ p, p ∈ cat → pdgid p ≠ aid) ∧ id = - aid)).
Proof.
  rewrite absid_to_pdgid_lookup_iff.
  assert ((∃ p, p ∈ cat ∧ kept p = true ∧ Z.abs (pdgid p) = aid)
          ↔ (∃ p, p ∈ cat ∧ is_quark p = false ∧ is_nucleus_or_ion p = false
                  ∧ Z.abs (pdgid p) = aid)) as ->.
  { split; intros (p & Hin & H); exists p; (split; [done|]).
    - destruct H as [Hk Ha]. unfold kept in Hk.
      apply andb_true_iff in Hk as [H1 H2].
      apply negb_true_iff in H1, H2. done.
    - destruct H as (H1 & H2 & Ha). unfold kept. by rewrite H1, H2. }
  apply and_iff_compat_l.
  destruct (from_pdgid cat aid) as [q|e] eqn:E.
  - assert (∃ p, p ∈ cat ∧ pdgid p = aid) as Hex.
    { apply from_pdgid_is_Ok. eauto. }
    split; [intros ->; by left|].
    intros [[_ ->]|[Hall _]]; [done|].
    destruct Hex as (p & Hin & Hp). by destruct (Hall p Hin).
  - destruct (from_pdgid_Raise _ _ _ E) as [_ Hall].
    split; [intros ->; by right|].
    intros [[(p & Hin & Hp) _]|[_ ->]]; [|done].
    by destruct (Hall p Hin).
Qed.

(** ** The order of the catalog *)

Lemma from_pdgid_NoDup cat p :
  NoDup (pdgid <$> cat) → p ∈ cat → from_pdgid cat (pdgid p) = Ok p.
Proof.
  induction cat as [|q cat IH]; [by intros _ ?%elem_of_nil|].
  rewrite fmap_cons, NoDup_cons. intros [Hq Hnd] [->|Hin]%elem_of_cons; simpl.
  - by rewrite Z.eqb_refl.
  - destruct (pdgid q =? pdgid p) eqn:E; [|by apply IH].
    apply Z.eqb_eq in E. destruct Hq. rewrite E.
    apply list_elem_of_fmap. eauto.
Qed.

Lemma from_pdgid_permutation cat cat' v :
  NoDup (pdgid <$> cat) → cat ≡ₚ cat' → from_pdgid cat v = from_pdgid cat' v.
Proof.
  intros Hnd Hperm.
  assert (NoDup (pdgid <$> cat')) as Hnd' by (by rewrite <- Hperm).
  destruct (from_pdgid cat v) as [p|e] eqn:E.
  - destruct (from_pdgid_Ok _ _ _ E) as [<- Hin].
    symmetry. apply from_pdgid_NoDup; [done|]. by rewrite <- Hperm.
  - destruct (from_pdgid_Raise _ _ _ E) as [-> Hall].
    destruct (from_pdgid cat' v) as [p|e'] eqn:E'.
    + destruct (from_pdgid_Ok _ _ _ E') as [Hp Hin].
      rewrite <- Hperm in Hin. by destruct (Hall p Hin).
    + by destruct (from_pdgid_Raise _ _ _ E') as [-> _].
Qed.

Lemma absid_to_pdgid_permutation cat cat' :
  cat ≡ₚ cat' → absid_to_pdgid cat = absid_to_pdgid cat'.
Proof.
  intros Hperm. apply map_eq. intros aid. apply option_eq. intros id.
  rewrite !absid_to_pdgid_lookup_iff.
  assert (match from_pdgid cat aid with Ok _ => aid | Raise _ => - aid end
          = match from_pdgid cat' aid with Ok _ => aid | Raise _ => - aid end)
    as ->.
  { destruct (from_pdgid cat aid) as [q|e] eqn:E,
             (from_pdgid cat' aid) as [q'|e'] eqn:E'; try done.
    - assert (∃ q, from_pdgid cat' aid = Ok q) as [? ?]; [|congruence].
      apply from_pdgid_is_Ok.
      destruct (proj1 (from_pdgid_is_Ok cat aid)) as (p & Hin & Hp); [eauto|].
      exists p. by rewrite <- Hperm.
    - assert (∃ q, from_pdgid cat aid = Ok q) as [? ?]; [|congruence].
      apply from_pdgid_is_Ok.
      destruct (proj1 (from_pdgid_is_Ok cat' aid)) as (p & Hin & Hp); [eauto|].
      exists p. by rewrite Hperm. }
  apply and_iff_compat_r.
  split; intros (p & Hin & H); exists p; split; try done;
    [by rewrite <- Hperm|by rewrite Hperm].
Qed.

(** X3: the dictionary does not depend on the order in which the catalog is
    enumerated; when no two records share an identifier, neither does the
    table. *)
Theorem table_independent_of_catalog_order cat cat' :
  cat ≡ₚ cat' →
  absid_to_pdgid cat = absid_to_pdgid cat'
  ∧ (NoDup (pdgid <$> cat) → build_rows cat = build_rows cat').
Proof.
  intros Hperm. pose proof (absid_to_pdgid_permutation _ _ Hperm) as Hd.
  split; [done|]. intros Hnd.
  rewrite !build_rows_omap, <- Hd. f_equal.
  apply omap_ext_elem_of. intros aid _. unfold row_of_key.
  destruct (absid_to_pdgid cat !! aid) as [id|]; [|done]. simpl.
  unfold row_of, forced_mass_mev, str_stored.
  rewrite (from_pdgid_permutation cat cat' id Hnd Hperm).
  by rewrite (from_pdgid_permutation cat cat' (Z.abs id) Hnd Hperm).
Qed.

Lemma table_independent_of_catalog_order_witness :
  absid_to_pdgid sample_catalog = absid_to_pdgid (rev sample_catalog)
  ∧ (NoDup (pdgid <$> sample_catalog) →
     build_rows sample_catalog = build_rows (rev sample_catalog)).
Proof.
  apply (table_independent_of_catalog_order sample_catalog (rev sample_catalog)).
  apply Permutation_rev.
Defined.

(** The reversed sample catalog gives the sample table. *)
Example reversed_sample_rows : build_rows (rev sample_catalog) = Ok sample_rows.
Proof. vm_compute. reflexivity. Qed.

(** ** The sign of a row's identifier *)

(** X4: a row carries a negative identifier only when the catalog has no
    record for the positive one; its name and mass are then those of the
    antiparticle record.  Whenever the positive record exists, the row is the
    particle's. *)
Theorem negative_row_has_no_positive_record cat rows r :
  build_rows cat = Ok rows → r ∈ rows →
  (row_pdgid r < 0 → ∀ p, p ∈ cat → pdgid p ≠ - row_pdgid r)
  ∧ (∀ p, p ∈ cat → pdgid p = Z.abs (row_pdgid r) →
       row_pdgid r = Z.abs (row_pdgid r)).
Proof.
  intros Hb Hr. destruct (row_entry _ _ _ Hb Hr) as [Hid _].
  apply absid_to_pdgid_lookup_iff in Hid as [_ Hid].
  destruct (from_pdgid cat (Z.abs (row_pdgid r))) as [q|e] eqn:E.
  - split; [lia|done].
  - destruct (from_pdgid_Raise _ _ _ E) as [_ Hall]. split.
    + intros Hneg p Hin Hp. apply (Hall p Hin). lia.
    + intros p Hin Hp. by destruct (Hall p Hin).
Qed.

Lemma negative_row_has_no_positive_record_witness :
  (row_pdgid row_antiproton < 0 →
   ∀ p, p ∈ sample_catalog → pdgid p ≠ - row_pdgid row_antiproton)
  ∧ (∀ p, p ∈ sample_catalog → pdgid p = Z.abs (row_pdgid row_antiproton) →
       row_pdgid row_antiproton = Z.abs (row_pdgid row_antiproton)).
Proof.
  apply (negative_row_has_no_positive_record sample_catalog sample_rows).
  - vm_compute. reflexivity.
  - unfold sample_rows.
    repeat first [apply list_elem_of_here | apply list_elem_of_further].
Defined.

(** ** Which groups reach the table *)

(** X5: a group of the dictionary has a row exactly when its mass resolves:
    when it is massless by convention, or the catalog record of its
    representative holds a mass that is a number. *)
Theorem group_has_row_iff_mass_resolves cat rows aid id :
  build_rows cat = Ok rows → absid_to_pdgid cat !! aid = Some id →
  (∃ r, r ∈ rows ∧ row_pdgid r = id)
  ↔ (aid ∈ massless_ids
     ∨ ∃ p m, from_pdgid cat id = Ok p ∧ mass p = Some m
              ∧ F64.isnan m = false).
Proof.
  intros Hb Hid.
  destruct (absid_to_pdgid_ok cat _ _ Hid) as (Habs & _ & _ & q & Hq).
  split.
  - intros (r & Hr & Hi). destruct (row_mass _ _ _ Hb Hr) as (Hm & _).
    rewrite Hi in Hm.
    destruct (decide (aid ∈ massless_ids)) as [|Hn]; [by left|right].
    rewrite (forced_mass_mev_lookup cat id q) in Hm by (by rewrite ?Habs).
    exists q. destruct (mass q) as [m|]; [|done].
    destruct (F64.isnan m) eqn:En; [done|]. eauto.
  - intros H.
    assert (∃ m, forced_mass_mev cat id = Ok m) as [m Hm].
    { destruct H as [Ha|(p & m & Hp & Hmass & Hn)].
      - exists F64.zero. apply forced_mass_mev_massless. by rewrite Habs.
      - destruct (decide (Z.abs id ∈ massless_ids)) as [Ha|Ha].
        + exists F64.zero. by apply forced_mass_mev_massless.
        + exists m. rewrite (forced_mass_mev_lookup cat id p) by done.
          by rewrite Hmass, Hn. }
    destruct (group_row cat rows aid id m Hb Hid Hm) as (r & Hr & Hi & _).
    eauto.
Qed.

Lemma group_has_row_iff_mass_resolves_witness :
  (∃ r, r ∈ sample_rows ∧ row_pdgid r = -4122)
  ↔ (4122 ∈ massless_ids
     ∨ ∃ p m, from_pdgid sample_catalog (-4122) = Ok p ∧ mass p = Some m
              ∧ F64.isnan m = false).
Proof.
  apply (group_has_row_iff_mass_resolves sample_catalog sample_rows 4122 (-4122)).
  - vm_compute. reflexivity.
  - vm_compute. reflexivity.
Defined.

(** ** The file is rebuilt from scratch *)

(** X7: with the package present the script leaves the [data] directory in
    place and a file whose content does not depend on what the directory or
    the file held before; running the script a second time changes neither. *)
Theorem file_rebuilt_from_scratch cat git_hash w w' :
  let env := mkEnv (Some cat) git_hash in
  data_dir (snd (script env w)) = true
  ∧ masses_file (snd (script env w)) = masses_file (snd (script env w'))
  ∧ masses_file (snd (script env (snd (script env w))))
    = masses_file (snd (script env w))
  ∧ data_dir (snd (script env (snd (script env w)))) = true.
Proof.
  intros env. destruct (build_rows_total cat) as [rows Hb].
  rewrite !(script_world env _ cat rows eq_refl Hb). done.
Qed.

(** ** The masses of the table are numbers *)

Lemma binary_round_aux_not_nan sx mx ex lx :
  0 <= mx →
  F64.isnan (binary_round_aux F64.prec F64.emax sx mx ex lx) = false.
Proof.
  intros Hm. unfold binary_round_aux.
  pose proof (shr_fexp_bound mx ex lx Hm) as (H1 & _ & _).
  destruct (shr_fexp F64.prec F64.emax mx ex lx) as [mrs' e']. simpl in H1.
  pose proof (shr_fexp_bound
    (round_nearest_even (shr_m mrs') (loc_of_shr_record mrs')) e' loc_Exact
    (round_nearest_even_nonneg _ _ H1)) as (H2 & _ & _).
  destruct (shr_fexp F64.prec F64.emax _ e' loc_Exact) as [mrs'' e''].
  simpl in H2.
  destruct (shr_m mrs'') as [|m|m]; [done| |lia].
  by destruct (e'' <=? F64.emax - F64.prec).
Qed.

Lemma mul_MEV_TO_KG_not_nan x :
  F64.isnan x = false → F64.isnan (F64.mul x MEV_TO_KG) = false.
Proof.
  destruct x as [s|s| |s m e]; try done. intros _.
  apply binary_round_aux_not_nan. lia.
Qed.

(** X8: no row holds a NaN: the mass in MeV and the mass in kilograms of
    every row are numbers (possibly zero or infinite), the mass in kilograms
    is in the binary64 range, and its text is never ["nan"]. *)
Theorem rows_hold_numbers cat rows r :
  build_rows cat = Ok rows → r ∈ rows →
  F64.isnan (row_m_mev r) = false
  ∧ F64.isnan (row_m_kg r) = false
  ∧ F64.in_range (row_m_kg r) = true
  ∧ m_kg_str (row_m_kg r) ≠ "nan".
Proof.
  intros Hb Hr. destruct (row_mass _ _ _ Hb Hr) as (Hm & Hkg & p & Hp & _).
  assert (F64.isnan (row_m_mev r) = false) as Hmev.
  { destruct (decide (Z.abs (row_pdgid r) ∈ massless_ids)) as [Ha|Ha].
    - rewrite forced_mass_mev_massless in Hm by done. by injection Hm as <-.
    - rewrite (forced_mass_mev_lookup _ _ _ Ha Hp) in Hm.
      destruct (mass p) as [m|]; [|done].
      destruct (F64.isnan m) eqn:En; [done|]. by injection Hm as <-. }
  assert (F64.isnan (row_m_kg r) = false) as Hnk.
  { rewrite Hkg. by apply mul_MEV_TO_KG_not_nan. }
  split; [done|]. split; [done|]. split.
  - rewrite Hkg. apply mul_in_range.
  - unfold m_kg_str. destruct (F64.neqb (row_m_kg r) F64.zero); [|done].
    destruct (row_m_kg r) as [s|s| |s m e]; [| |done|].
    + destruct s; vm_compute; discriminate.
    + destruct s; vm_compute; discriminate.
    + intros H. apply (f_equal String.length) in H.
      unfold PyFormat.format_e in H. rewrite string_length_of_list in H.
      destruct (PyFormat.round_sig 11 m e) as [d k].
      rewrite !length_app in H.
      pose proof (length_with_point
        (PyFormat.digits_fixed 1 (d / 10 ^ Z.of_nat 10))
        (PyFormat.digits_fixed 10 d)) as Hl.
      rewrite length_digits_fixed in Hl. simpl in H. lia.
Qed.

Lemma rows_hold_numbers_witness :
  F64.isnan (row_m_mev row_f0) = false
  ∧ F64.isnan (row_m_kg row_f0) = false
  ∧ F64.in_range (row_m_kg row_f0) = true
  ∧ m_kg_str (row_m_kg row_f0) ≠ "nan".
Proof.
  apply (rows_hold_numbers sample_catalog sample_rows row_f0).
  - vm_compute. reflexivity.
  - unfold sample_rows.
    repeat first [apply list_elem_of_here | apply list_elem_of_further].
Defined.

(** ** Every row is named *)

(** X9: the name of a row is never empty: it is the catalog's name of the
    representative or, when that is missing or empty, ["PDG"] followed by the
    decimal text of a non-negative identifier or by ["<PDGID: n>"] for a
    negative identifier [n]. *)
Theorem row_name_not_empty cat rows r :
  build_rows cat = Ok rows → r ∈ rows →
  row_name r ≠ ""
  ∧ ∃ p, from_pdgid cat (row_pdgid r) = Ok p
         ∧ (name p = Some (row_name r)
            ∨ (0 <= row_pdgid r
               ∧ row_name r = "PDG" +:+ PyFormat.str_int (row_pdgid r))
            ∨ (row_pdgid r < 0
               ∧ row_name r = "PDG" +:+ PyFormat.str_PDGID (row_pdgid r))).
Proof.
  intros Hb Hr. destruct (row_mass _ _ _ Hb Hr) as (_ & _ & p & Hp & Hname).
  pose proof (row_str_stored _ _ _ Hb Hr) as Hs.
  rewrite Hname. split.
  - by destruct (name p) as [[|c s]|].
  - exists p. split; [done|].
    assert ((0 <= row_pdgid r
             ∧ str_stored cat (Z.abs (row_pdgid r)) (row_pdgid r)
               = PyFormat.str_int (row_pdgid r))
            ∨ (row_pdgid r < 0
               ∧ str_stored cat (Z.abs (row_pdgid r)) (row_pdgid r)
                 = PyFormat.str_PDGID (row_pdgid r))) as Hcases.
    { destruct (from_pdgid cat (Z.abs (row_pdgid r))); [by left|by right]. }
    destruct (name p) as [[|c s]|]; [|by left|];
      right; destruct Hcases as [[Hsign ->]|[Hsign ->]]; eauto.
Qed.

Lemma row_name_not_empty_witness :
  row_name row_antiproton ≠ ""
  ∧ ∃ p, from_pdgid sample_catalog (row_pdgid row_antiproton) = Ok p
         ∧ (name p = Some (row_name row_antiproton)
            ∨ (0 <= row_pdgid row_antiproton
               ∧ row_name row_antiproton
                 = "PDG" +:+ PyFormat.str_int (row_pdgid row_antiproton))
            ∨ (row_pdgid row_antiproton < 0
               ∧ row_name row_antiproton
                 = "PDG" +:+ PyFormat.str_PDGID (row_pdgid row_antiproton))).
Proof.
  apply (row_name_not_empty sample_catalog sample_rows row_antiproton).
  - vm_compute. reflexivity.
  - unfold sample_rows.
    repeat first [apply list_elem_of_here | apply list_elem_of_further].
Defined.

(** ** The lines of the massless particles *)

(** X10: the line of a row that is massless by convention reads: the
    identifier field, the literal ["0.0"] padded to its 18 columns, the
    comment mark, the name and ["(0 MeV/c^2)"]. *)
Theorem massless_payload_line cat rows r :
  build_rows cat = Ok rows → r ∈ rows → Z.abs (row_pdgid r) ∈ massless_ids →
  payload_line r
  = PyFormat.rjust 6 (PyFormat.str_int (row_pdgid r))
      +:+ " 0.0                   # " +:+ row_name r
      +:+ " (0 MeV/c^2)" +:+ PyFormat.nl.
Proof.
  intros Hb Hr Ha. destruct (row_mass _ _ _ Hb Hr) as (Hm & Hkg & _).
  rewrite forced_mass_mev_massless in Hm by done. injection Hm as Hm.
  unfold payload_line. rewrite Hkg, <- Hm. reflexivity.
Qed.

Lemma massless_payload_line_witness :
  payload_line row_photon
  = PyFormat.rjust 6 (PyFormat.str_int (row_pdgid row_photon))
      +:+ " 0.0                   # " +:+ row_name row_photon
      +:+ " (0 MeV/c^2)" +:+ PyFormat.nl.
Proof.
  apply (massless_payload_line sample_catalog sample_rows row_photon).
  - vm_compute. reflexivity.
  - unfold sample_rows.
    repeat first [apply list_elem_of_here | apply list_elem_of_further].
  - rewrite massless_ids_spec. simpl. lia.
Defined.

(** ** The identifier field can be read back *)

Lemma str_int_parse z :
  NilZero.int_of_string (PyFormat.str_int z) = Some (Z.to_int z).
Proof.
  unfold PyFormat.str_int. apply NilZero.isi; destruct z; simpl; try done.
  - intros [= H]. by apply DecimalPos.Unsigned.to_uint_nonnil in H.
  - intros [= H]. by apply DecimalPos.Unsigned.to_uint_nonnil in H.
Qed.

Lemma str_int_inj a b : PyFormat.str_int a = PyFormat.str_int b → a = b.
Proof.
  intros H. apply (f_equal NilZero.int_of_string) in H.
  rewrite !str_int_parse in H. injection H as H.
  by apply DecimalZ.to_int_inj.
Qed.

Lemma str_int_head z :
  ∃ c s, PyFormat.str_int z = String c s ∧ c ≠ " "%char.
Proof.
  unfold PyFormat.str_int.
  destruct (Z.to_int z) as [d|d]; simpl.
  - destruct d; simpl; eauto.
  - eauto.
Qed.

Lemma spaces_S n : PyFormat.spaces (S n) = String " " (PyFormat.spaces n).
Proof. reflexivity. Qed.

Lemma padded_inj n1 n2 s1 s2 c1 c2 t1 t2 :
  s1 = String c1 t1 → c1 ≠ " "%char → s2 = String c2 t2 → c2 ≠ " "%char →
  PyFormat.spaces n1 +:+ s1 = PyFormat.spaces n2 +:+ s2 → s1 = s2.
Proof.
  intros -> H1 -> H2. revert n2.
  induction n1 as [|n1 IH]; intros [|n2]; rewrite ?spaces_S.
  - done.
  - intros [= -> _]. done.
  - intros [= <- _]. done.
  - intros [= H]. by apply (IH n2).
Qed.

(** X12: the identifier field determines the identifier: its text parses
    back to the identifier, two identifiers with the same field are equal,
    and so no two lines of the table start with the same field. *)
Theorem identifier_field_reads_back cat rows :
  build_rows cat = Ok rows →
  (∀ z, Z.of_int <$> NilZero.int_of_string (PyFormat.str_int z) = Some z)
  ∧ (∀ a b, PyFormat.rjust 6 (PyFormat.str_int a)
            = PyFormat.rjust 6 (PyFormat.str_int b) → a = b)
  ∧ (∀ i j ri rj, rows !! i = Some ri → rows !! j = Some rj →
       PyFormat.rjust 6 (PyFormat.str_int (row_pdgid ri))
       = PyFormat.rjust 6 (PyFormat.str_int (row_pdgid rj)) → i = j).
Proof.
  intros Hb.
  assert (∀ a b, PyFormat.rjust 6 (PyFormat.str_int a)
                 = PyFormat.rjust 6 (PyFormat.str_int b) → a = b) as Hinj.
  { intros a b H. apply str_int_inj.
    destruct (str_int_head a) as (c1 & t1 & E1 & H1).
    destruct (str_int_head b) as (c2 & t2 & E2 & H2).
    unfold PyFormat.rjust in H. by eapply padded_inj. }
  split; [|split; [done|]].
  - intros z. rewrite str_int_parse. simpl. by rewrite DecimalZ.of_to.
  - intros i j ri rj Hi Hj H. apply Hinj in H.
    revert Hb Hi Hj. rewrite build_rows_omap. intros [= <-] Hi Hj.
    assert (NoDup ((λ r, Z.abs (row_pdgid r)) <$>
                     omap (row_of_key cat (absid_to_pdgid cat))
                          (sorted_keys (absid_to_pdgid cat)))) as Hnd.
    { apply StronglySorted_lt_NoDup, omap_sorted; [|apply sorted_keys_lt].
      intros k a. apply row_abs_key. }
    eapply NoDup_lookup; [exact Hnd| |].
    + rewrite list_lookup_fmap, Hi. reflexivity.
    + rewrite list_lookup_fmap, Hj. simpl. by rewrite H.
Qed.

Lemma identifier_field_reads_back_witness :
  (∀ z, Z.of_int <$> NilZero.int_of_string (PyFormat.str_int z) = Some z)
  ∧ (∀ a b, PyFormat.rjust 6 (PyFormat.str_int a)
            = PyFormat.rjust 6 (PyFormat.str_int b) → a = b)
  ∧ (∀ i j ri rj, sample_rows !! i = Some ri → sample_rows !! j = Some rj →
       PyFormat.rjust 6 (PyFormat.str_int (row_pdgid ri))
       = PyFormat.rjust 6 (PyFormat.str_int (row_pdgid rj)) → i = j).
Proof.
  apply (identifier_field_reads_back sample_catalog sample_rows).
  vm_compute. reflexivity.
Defined.

(** ** The antiparticle's record *)

Lemma absid_to_pdgid_ids cat cat' :
  pdgid <$> cat = pdgid <$> cat' → absid_to_pdgid cat = absid_to_pdgid cat'.
Proof.
  intros Hids. apply map_eq. intros aid. apply option_eq. intros id.
  rewrite !absid_to_pdgid_lookup_iff.
  assert (∀ c : list Particle,
            (∃ p, p ∈ c ∧ kept p = true ∧ Z.abs (pdgid p) = aid)
               ↔ ∃ v, v ∈ pdgid <$> c
                      ∧ kept (mkParticle v None None) = true ∧ Z.abs v = aid)
    as Hkept.
  { intros c. split.
    - intros (p & Hin & Hk & Ha). exists (pdgid p).
      split; [apply list_elem_of_fmap; eauto|].
      split; [|done]. by rewrite <- Hk; apply kept_same_abs.
    - intros (v & (p & -> & Hin)%list_elem_of_fmap & Hk & Ha).
      exists p. split; [done|]. split; [|done].
      by rewrite <- Hk; apply kept_same_abs. }
  assert (∀ c : list Particle,
            (∃ q, from_pdgid c aid = Ok q) ↔ aid ∈ pdgid <$> c) as Hok.
  { intros c. rewrite from_pdgid_is_Ok, list_elem_of_fmap.
    split; [intros (p & Hin & Hp)|intros (p & Hp & Hin)]; exists p; by split. }
  rewrite !Hkept, Hids.
  assert (match from_pdgid cat aid with Ok _ => aid | Raise _ => - aid end
          = match from_pdgid cat' aid with Ok _ => aid | Raise _ => - aid end)
    as ->; [|done].
  destruct (from_pdgid cat aid) as [q|e] eqn:E,
           (from_pdgid cat' aid) as [q'|e'] eqn:E'; try done.
  - assert (∃ q, from_pdgid cat' aid = Ok q) as [? ?]; [|congruence].
    apply Hok. rewrite <- Hids. apply Hok. eauto.
  - assert (∃ q, from_pdgid cat aid = Ok q) as [? ?]; [|congruence].
    apply Hok. rewrite Hids. apply Hok. eauto.
Qed.

Lemma from_pdgid_replace pre p p' post v :
  pdgid p' = pdgid p → v ≠ pdgid p →
  from_pdgid (pre ++ p' :: post) v = from_pdgid (pre ++ p :: post) v.
Proof.
  intros Hp Hv. induction pre as [|q pre IH]; simpl.
  - rewrite Hp. destruct (pdgid p =? v) eqn:E; [|done].
    apply Z.eqb_eq in E. congruence.
  - by rewrite IH.
Qed.

(** X13: when the catalog holds the particle, the antiparticle's record
    gives the table nothing but its identifier: whatever mass and name it
    carries, the table is the same. *)
Theorem antiparticle_record_is_not_read pre p p' post :
  pdgid p' = pdgid p → pdgid p < 0 →
  (∃ q, q ∈ pre ++ post ∧ pdgid q = - pdgid p) →
  build_rows (pre ++ p' :: post) = build_rows (pre ++ p :: post).
Proof.
  intros Hp Hneg (q & Hq & Hqid).
  assert (absid_to_pdgid (pre ++ p' :: post)
          = absid_to_pdgid (pre ++ p :: post)) as Hd.
  { apply absid_to_pdgid_ids. by rewrite !fmap_app, !fmap_cons, Hp. }
  rewrite !build_rows_omap, Hd. f_equal.
  apply omap_ext_elem_of. intros aid _. unfold row_of_key.
  destruct (absid_to_pdgid (pre ++ p :: post) !! aid) as [id|] eqn:E; [|done].
  simpl.
  assert (id ≠ pdgid p) as Hne.
  { intros ->.
    destruct (absid_to_pdgid_ok _ _ _ E) as (Habs & _).
    apply absid_to_pdgid_lookup_iff in E as [_ E].
    assert (∃ x, from_pdgid (pre ++ p :: post) aid = Ok x) as [x Hx].
    { apply from_pdgid_is_Ok. exists q. split; [|lia].
      apply elem_of_app in Hq as [Hq|Hq]; apply elem_of_app;
        [by left|right; by apply list_elem_of_further]. }
    rewrite Hx in E. lia. }
  unfold row_of, forced_mass_mev, str_stored.
  rewrite (from_pdgid_replace pre p p' post id Hp Hne).
  by rewrite (from_pdgid_replace pre p p' post (Z.abs id) Hp) by lia.
Qed.

Lemma antiparticle_record_is_not_read_witness :
  build_rows (firstn 1 sample_catalog
                ++ mkParticle (-11) None (Some "positron")
                :: skipn 2 sample_catalog)
  = build_rows sample_catalog.
Proof.
  apply (antiparticle_record_is_not_read (firstn 1 sample_catalog)
           (mkParticle (-11) (Some mass_electron) (Some "e+"))
           (mkParticle (-11) None (Some "positron"))
           (skipn 2 sample_catalog)).
  - reflexivity.
  - simpl. lia.
  - exists (mkParticle 11 (Some mass_electron) (Some "e-")). split.
    + simpl. apply list_elem_of_further, list_elem_of_here.
    + reflexivity.
Defined.
